(** * TextImage: request construction and generation lifecycle of [src/App.tsx]

    A shallow embedding of the helpers ([parseResolution], [sanitizeFilename],
    [buildPollinationsUrl]) and of the [handleGenerate] handler of the [App]
    component, together with the ECMAScript and URL built-ins they call.

    - A JavaScript string is the list of its UTF-16 code units.
    - A JavaScript number is modelled on the integers, which is where every
      number of this program lives (dimensions, seeds, lengths); the rounding
      of integers that do not fit the 53-bit significand of a double is
      written out in [toNumber].  Printing ([String_]) is the exact decimal
      notation, which is what ECMAScript prints below 2^53 in magnitude
      ([isExact]); the properties of a printed number are stated there.
    - React state is a record; a handler reads the snapshot it closed over and
      writes through the setters.  The handler that runs is taken to be the
      one of the latest render, so the snapshot is the current state.
    - [window.crypto] and [Date.now()] are oracles: the values their
      successive calls give, with the number of calls made so far kept in
      the world. *)

From Stdlib Require Import ZArith List Bool Ascii String Lia.
Import ListNotations.
Local Close Scope string_scope.
Local Open Scope Z_scope.

(** ** Strings *)

Definition codeunit := Z.
Definition jsstring := list codeunit.

(** A source literal (all literals of [App.tsx] used here are ASCII). *)
Definition lit (s : string) : jsstring :=
  map (fun a => Z.of_nat (nat_of_ascii a)) (list_ascii_of_string s).

Definition jsstring_eqb (a b : jsstring) : bool :=
  if list_eq_dec Z.eq_dec a b then true else false.

Definition between (lo hi c : Z) : bool := (lo <=? c) && (c <=? hi).

Definition isDigit (c : codeunit) : bool := between 48 57 c.
Definition isUpper (c : codeunit) : bool := between 65 90 c.
Definition isLower (c : codeunit) : bool := between 97 122 c.
Definition isAlnum (c : codeunit) : bool := isDigit c || isUpper c || isLower c.

Definition HYPHEN : codeunit := 45.

(** ECMAScript [WhiteSpace] and [LineTerminator] code points: what
    [String.prototype.trim] and [parseInt] strip. *)
Definition isWhiteSpace (c : codeunit) : bool :=
  between 9 13 c || (c =? 32) || (c =? 160) || (c =? 5760)
  || between 8192 8202 c || (c =? 8232) || (c =? 8233) || (c =? 8239)
  || (c =? 8287) || (c =? 12288) || (c =? 65279).

(** The string without its longest prefix of code units satisfying [p]. *)
Fixpoint dropWhile (p : codeunit -> bool) (s : jsstring) : jsstring :=
  match s with
  | c :: r => if p c then dropWhile p r else s
  | [] => []
  end.

(** The string without its longest suffix of code units satisfying [p]. *)
Fixpoint dropWhileEnd (p : codeunit -> bool) (s : jsstring) : jsstring :=
  match s with
  | c :: r =>
      match dropWhileEnd p r with
      | [] => if p c then [] else [c]
      | r' => c :: r'
      end
  | [] => []
  end.

Definition trimStart (s : jsstring) : jsstring := dropWhile isWhiteSpace s.
Definition trimEnd (s : jsstring) : jsstring := dropWhileEnd isWhiteSpace s.

(** [String.prototype.trim] *)
Definition trim (s : jsstring) : jsstring := trimEnd (trimStart s).

(** [String.prototype.split] with a separator of one code unit: the pieces
    between the occurrences of [sep], never an empty array. *)
Fixpoint split (sep : codeunit) (s : jsstring) : list jsstring :=
  match s with
  | [] => [[]]
  | c :: r =>
      if c =? sep then [] :: split sep r
      else match split sep r with
           | p :: ps => (c :: p) :: ps
           | [] => [[c]]
           end
  end.

(** ** Numbers *)

(** What a variable typed [number] holds at run time in this program.
    [Num z] is the double whose value is the integer [z]; [Undefined] is what
    array destructuring leaves in a variable when the array is too short.
    Numbers with a fractional part are outside this type, and the two zeros
    are one value, [Num 0] (both print as [0]). *)
Inductive number : Type :=
  | Num (z : Z)
  | NaN
  | Infinity (negative : bool)
  | Undefined.

(** Round a non-negative integer to the nearest double, ties to even. *)
Definition roundToDouble (n : Z) : number :=
  if n <? 2 ^ 53 then Num n
  else
    let e := Z.log2 n - 52 in
    let q := Z.shiftr n e in
    let r := n - Z.shiftl q e in
    let half := Z.shiftl 1 (e - 1) in
    let q' := if (r <? half) || ((r =? half) && Z.even q) then q else q + 1 in
    let v := Z.shiftl q' e in
    if 2 ^ 1024 <=? v then Infinity false else Num v.

(** The Number value of a mathematical integer. *)
Definition toNumber (z : Z) : number :=
  if z <? 0 then
    match roundToDouble (- z) with
    | Num v => Num (- v)
    | Infinity _ => Infinity true
    | other => other
    end
  else roundToDouble z.

(** [a + b] on numbers. *)
Definition add (a b : number) : number :=
  match a, b with
  | Num x, Num y => toNumber (x + y)
  | Infinity s, Num _ | Num _, Infinity s => Infinity s
  | Infinity s, Infinity t => if Bool.eqb s t then Infinity s else NaN
  | _, _ => NaN
  end.

(** Decimal digits of a non-negative integer, most significant first. *)
Fixpoint digitsFuel (fuel : nat) (n : Z) (acc : jsstring) : jsstring :=
  let acc' := (48 + n mod 10) :: acc in
  match fuel with
  | O => acc'
  | S f => if n <? 10 then acc' else digitsFuel f (n / 10) acc'
  end.

Definition digits (n : Z) : jsstring := digitsFuel (Z.to_nat (Z.log2 n)) n [].

(** The numbers whose printing [String_] below gives as ECMAScript does: the
    integers of magnitude below 2^53 and the three values printed by name.
    Beyond 2^53 ECMAScript prints the shortest digits that read back as the
    same double, in exponent notation from 10^21 on; [String_] does not. *)
Definition isExact (x : number) : bool :=
  match x with
  | Num z => Z.abs z <? 2 ^ 53
  | NaN | Infinity _ | Undefined => true
  end.

(** [String(x)] for [x] a number or [undefined], on the values of [isExact]:
    exact decimal notation, a name for the others. *)
Definition String_ (x : number) : jsstring :=
  match x with
  | Num z => if z <? 0 then HYPHEN :: digits (- z) else digits z
  | NaN => lit "NaN"
  | Infinity false => lit "Infinity"
  | Infinity true => lit "-Infinity"
  | Undefined => lit "undefined"
  end.

(** The integer a run of decimal digits denotes, accumulated left to right. *)
Definition digitsValue (ds : jsstring) : Z :=
  fold_left (fun acc d => acc * 10 + (d - 48)) ds 0.

Fixpoint takeDigits (s : jsstring) : jsstring :=
  match s with
  | c :: r => if isDigit c then c :: takeDigits r else []
  | [] => []
  end.

(** [parseInt(s, 10)]: skip leading white space, read an optional sign, then
    the longest prefix of decimal digits; [NaN] when there is none. *)
Definition parseInt10 (s : jsstring) : number :=
  let s1 := trimStart s in
  let '(neg, s2) :=
    match s1 with
    | c :: r => if c =? 45 then (true, r) else if c =? 43 then (false, r) else (false, s1)
    | [] => (false, s1)
    end in
  match takeDigits s2 with
  | [] => NaN
  | ds => toNumber (if neg then - digitsValue ds else digitsValue ds)
  end.

(** ** Resolution codec *)

Record Dimensions : Type := { width : number; height : number }.

(** [const [w, h] = res.split('x').map((n) => parseInt(n.trim(), 10))] *)
Definition parseResolution (res : jsstring) : Dimensions :=
  let parts := map (fun n => parseInt10 (trim n)) (split 120 res) in
  {| width := nth 0 parts Undefined; height := nth 1 parts Undefined |}.

(** ** Filename sanitizer *)

(** [.replace(/[^a-z0-9]+/gi, '-')]: every maximal run of code units that are
    not ASCII letters or digits becomes one hyphen.  Without the [u] flag,
    case-insensitive matching never folds a non-ASCII code unit onto an
    ASCII one, so exactly the ASCII letters and digits are kept.  [inRun]
    tells that the match in progress has already been replaced. *)
Fixpoint replaceRuns (inRun : bool) (s : jsstring) : jsstring :=
  match s with
  | [] => []
  | c :: r =>
      if isAlnum c then c :: replaceRuns false r
      else if inRun then replaceRuns true r
      else HYPHEN :: replaceRuns true r
  end.

Definition isHyphen (c : codeunit) : bool := c =? HYPHEN.

(** [.replace(/^-+|-+$/g, '')]: the leading and the trailing run of hyphens
    are removed. *)
Definition stripHyphens (s : jsstring) : jsstring :=
  dropWhileEnd isHyphen (dropWhile isHyphen s).

(** An ASCII capital as its small letter, any other code unit as it is. *)
Definition lowerUnit (c : codeunit) : codeunit := if isUpper c then c + 32 else c.

(** [String.prototype.toLowerCase] on the ASCII letters; [sanitizeFilename]
    applies it to strings made of ASCII letters, digits and hyphens only
    (see [tidy_strip_replace]). *)
Definition toLowerCase (s : jsstring) : jsstring := map lowerUnit s.

Definition sanitizeFilename (name : jsstring) : jsstring :=
  toLowerCase (stripHyphens (replaceRuns false name)).

(** ** Request builder *)

Inductive exn : Type := URIError.

(** How a call completes: with a value or with a thrown exception. *)
Inductive Completion (A : Type) : Type :=
  | Return (a : A)
  | Throw (e : exn).
Arguments Return {A} a.
Arguments Throw {A} e.

Definition isHighSurrogate (c : codeunit) : bool := between 55296 56319 c.
Definition isLowSurrogate (c : codeunit) : bool := between 56320 57343 c.

(** One step of [CodePointAt]: a code point, or a surrogate without its
    partner. *)
Inductive scalar : Type :=
  | CodePoint (cp : Z)
  | Unpaired (cu : codeunit).

Fixpoint codePoints (s : jsstring) : list scalar :=
  match s with
  | [] => []
  | c :: r =>
      if isHighSurrogate c then
        match r with
        | d :: r' =>
            if isLowSurrogate d
            then CodePoint ((c - 55296) * 1024 + (d - 56320) + 65536) :: codePoints r'
            else Unpaired c :: codePoints r
        | [] => [Unpaired c]
        end
      else if isLowSurrogate c then Unpaired c :: codePoints r
      else CodePoint c :: codePoints r
  end.

Definition isCodePoint (x : scalar) : bool :=
  match x with CodePoint _ => true | Unpaired _ => false end.

(** [String.prototype.isWellFormed]: no unpaired surrogate. *)
Definition isWellFormed (s : jsstring) : bool := forallb isCodePoint (codePoints s).

Definition byte := Z.

(** The UTF-8 octets of a code point. *)
Definition utf8 (cp : Z) : list byte :=
  if cp <? 128 then [cp]
  else if cp <? 2048 then
    [192 + cp / 64; 128 + cp mod 64]
  else if cp <? 65536 then
    [224 + cp / 4096; 128 + (cp / 64) mod 64; 128 + cp mod 64]
  else
    [240 + cp / 262144; 128 + (cp / 4096) mod 64; 128 + (cp / 64) mod 64;
     128 + cp mod 64].

Definition hexDigit (d : Z) : codeunit := if d <? 10 then 48 + d else 55 + d.

Definition PERCENT : codeunit := 37.

(** ["%XX"], upper-case hexadecimal. *)
Definition percentByte (b : byte) : jsstring :=
  [PERCENT; hexDigit (b / 16); hexDigit (b mod 16)].

Definition memZ (c : Z) (l : list Z) : bool := existsb (Z.eqb c) l.

(** [uriUnreserved]: letters, digits and [-_.!~*'()]. *)
Definition isUnreserved (c : Z) : bool :=
  isAlnum c || memZ c [45; 95; 46; 33; 126; 42; 39; 40; 41].

Definition encodeCodePoint (cp : Z) : jsstring :=
  if isUnreserved cp then [cp] else flat_map percentByte (utf8 cp).

Fixpoint encodeScalars (l : list scalar) : Completion jsstring :=
  match l with
  | [] => Return []
  | CodePoint cp :: t =>
      match encodeScalars t with
      | Return e => Return (encodeCodePoint cp ++ e)
      | Throw x => Throw x
      end
  | Unpaired _ :: _ => Throw URIError
  end.

(** [encodeURIComponent]: unreserved code units are kept, every other code
    point is replaced by the escapes of its UTF-8 octets; an unpaired
    surrogate throws [URIError]. *)
Definition encodeURIComponent (s : jsstring) : Completion jsstring :=
  encodeScalars (codePoints s).

(** A [USVString]: a sequence of Unicode scalar values. *)
Definition USVString := list Z.

(** Conversion to a [USVString], as [URLSearchParams] does with every name
    and value it is given: an unpaired surrogate becomes U+FFFD. *)
Definition toUSV (s : jsstring) : USVString :=
  map (fun x => match x with CodePoint cp => cp | Unpaired _ => 65533 end)
      (codePoints s).

(** The [application/x-www-form-urlencoded] byte serializer. *)
Definition urlencodedByte (b : byte) : jsstring :=
  if b =? 32 then [43]
  else if isAlnum b || memZ b [42; 45; 46; 95] then [b]
  else percentByte b.

(** The serialization of a [USVString]: its UTF-8 octets, each through the
    byte serializer. *)
Definition serialize (u : USVString) : jsstring :=
  flat_map urlencodedByte (flat_map utf8 u).

(** What a JavaScript string given as a name or a value is serialized to. *)
Definition urlencoded (s : jsstring) : jsstring := serialize (toUSV s).

(** [URLSearchParams]: an ordered list of name-value pairs of [USVString]s. *)
Definition URLSearchParams := list (USVString * USVString).

(** [new URLSearchParams(record)]: the entries of the record in order, each
    name and value converted. *)
Definition newURLSearchParams (init : list (jsstring * jsstring)) : URLSearchParams :=
  map (fun kv => (toUSV (fst kv), toUSV (snd kv))) init.

Fixpoint removeName (name : USVString) (qs : URLSearchParams) : URLSearchParams :=
  match qs with
  | [] => []
  | (n, v) :: t =>
      if jsstring_eqb n name then removeName name t else (n, v) :: removeName name t
  end.

(** The update of the list that [set] does, on converted arguments: the first
    pair named [name] takes the value and the others go; without such a pair,
    one is appended. *)
Fixpoint setPair (name value : USVString) (qs : URLSearchParams) : URLSearchParams :=
  match qs with
  | [] => [(name, value)]
  | (n, v) :: t =>
      if jsstring_eqb n name then (n, value) :: removeName name t
      else (n, v) :: setPair name value t
  end.

(** [qs.set(name, value)] *)
Definition set (name value : jsstring) (qs : URLSearchParams) : URLSearchParams :=
  setPair (toUSV name) (toUSV value) qs.

(** [qs.toString()] *)
Fixpoint toString (qs : URLSearchParams) : jsstring :=
  match qs with
  | [] => []
  | [(n, v)] => serialize n ++ lit "=" ++ serialize v
  | (n, v) :: t => serialize n ++ lit "=" ++ serialize v ++ lit "&" ++ toString t
  end.

Record Params : Type := {
  p_prompt : jsstring;
  p_width : number;
  p_height : number;
  p_seed : number;
  p_model : option jsstring;
  p_enhance : option bool
}.

(** A string is truthy when it is not empty; an absent value is falsy. *)
Definition truthyString (m : option jsstring) : bool :=
  match m with Some (_ :: _) => true | _ => false end.

Definition truthyBool (b : option bool) : bool :=
  match b with Some true => true | _ => false end.

(** The [URLSearchParams] that [buildPollinationsUrl] serializes. *)
Definition searchParams (params : Params) : URLSearchParams :=
  let qs := newURLSearchParams
              [ (lit "width", String_ (p_width params));
                (lit "height", String_ (p_height params));
                (lit "seed", String_ (p_seed params));
                (lit "nologo", lit "true") ] in
  let qs := if truthyString (p_model params)
            then set (lit "model") (match p_model params with Some m => m | None => [] end) qs
            else qs in
  if truthyBool (p_enhance params) then set (lit "enhance") (lit "true") qs else qs.

Definition ENDPOINT : jsstring := lit "https://image.pollinations.ai/prompt/".

Definition buildPollinationsUrl (params : Params) : Completion jsstring :=
  let qs := searchParams params in
  match encodeURIComponent (p_prompt params) with
  | Return seg => Return (ENDPOINT ++ seg ++ lit "?" ++ toString qs)
  | Throw e => Throw e
  end.

(** The value of a hexadecimal digit. *)
Definition hexValue (c : codeunit) : option Z :=
  if isDigit c then Some (c - 48)
  else if between 65 70 c then Some (c - 55)
  else if between 97 102 c then Some (c - 87)
  else None.

(** Undoing one level of percent-escapes: the octets a path segment stands
    for.  It is not called by [App.tsx]; it states what the service reads. *)
Fixpoint percentDecode (s : jsstring) : option (list byte) :=
  match s with
  | [] => Some []
  | c :: r =>
      if c =? PERCENT then
        match r with
        | h :: l :: r' =>
            match hexValue h, hexValue l, percentDecode r' with
            | Some x, Some y, Some t => Some (16 * x + y :: t)
            | _, _, _ => None
            end
        | _ => None
        end
      else
        match percentDecode r with
        | Some t => Some (c :: t)
        | None => None
        end
  end.

(** A JavaScript string holds 16-bit code units. *)
Definition isString (s : jsstring) : bool := forallb (between 0 65535) s.

(** ** Option sets and presets *)

Inductive StyleOption : Type :=
  realistic | artistic | cartoon | abstract | cyberpunk | vintage.

Inductive Resolution : Type := r512x512 | r768x768 | r1024x1024 | r1536x1024.

Inductive Quality : Type := standard | high | ultra.

(** The string a [Resolution] is. *)
Definition resolutionToken (r : Resolution) : jsstring :=
  match r with
  | r512x512 => lit "512x512"
  | r768x768 => lit "768x768"
  | r1024x1024 => lit "1024x1024"
  | r1536x1024 => lit "1536x1024"
  end.

Definition STYLE_PRESETS (s : StyleOption) : jsstring :=
  match s with
  | realistic => lit "photorealistic, natural lighting, DSLR depth of field, highly detailed"
  | artistic => lit "digital painting, painterly brushstrokes, dramatic lighting"
  | cartoon => lit "cartoon, cel-shaded, bold outlines, flat colors"
  | abstract => lit "abstract, geometric shapes, minimalism"
  | cyberpunk => lit "cyberpunk, neon lights, rain-soaked streets, holograms, high contrast"
  | vintage => lit "vintage, film grain, faded colors, 35mm photo, 1970s aesthetic"
  end.

Definition MODEL_BY_STYLE (s : StyleOption) : jsstring :=
  match s with
  | realistic | artistic | cartoon | abstract | cyberpunk | vintage => lit "flux"
  end.

Record GeneratedImage : Type := {
  g_url : jsstring;
  g_prompt : jsstring;
  g_style : StyleOption;
  g_resolution : Resolution;
  g_quality : Quality;
  g_seed : number;
  g_width : number;
  g_height : number
}.

(** ** Component state *)

Inductive StatusType : Type := success | error | info.

Record Status : Type := { s_type : StatusType; s_message : jsstring }.

(** The [useState] cells of [App] that the generation logic touches. *)
Record State : Type := {
  prompt : jsstring;
  style : StyleOption;
  resolution : Resolution;
  quality : Quality;
  count : nat;
  isGenerating : bool;
  status : option Status;
  images : list GeneratedImage;
  modalUrl : option jsstring;
  modalPrompt : jsstring
}.

(** What the handlers do besides writing state. *)
Inductive Effect : Type :=
  | Shown (st : Status)          (* [setStatus] with a message *)
  | TimeoutSet (ms : Z).         (* [setTimeout] *)

(** The browser under the component: [window.crypto], when there is one, as
    the values its successive [getRandomValues] calls produce, and the
    readings of successive [Date.now()] calls. *)
Record Host : Type := {
  crypto : option (nat -> Z);
  DateNow : nat -> Z
}.

Record World : Type := {
  react : State;
  randomCalls : nat;
  clockCalls : nat;
  effects : list Effect
}.

(** A run of handler code: it ends with a value, or throws, in a world. *)
Inductive Outcome (A : Type) : Type :=
  | Done (a : A) (w : World)
  | Raised (e : exn) (w : World).
Arguments Done {A} a w.
Arguments Raised {A} e w.

Definition Action (A : Type) : Type := Host -> World -> Outcome A.

Definition ret {A} (a : A) : Action A := fun _ w => Done a w.

Definition bind {A B} (m : Action A) (k : A -> Action B) : Action B :=
  fun h w => match m h w with
             | Done a w' => k a h w'
             | Raised e w' => Raised e w'
             end.

Declare Scope action_scope.
Delimit Scope action_scope with action.
Notation "x <- m ;; k" := (bind m (fun x => k))
  (at level 61, m at next level, right associativity) : action_scope.
Notation "m ;; k" := (bind m (fun _ => k))
  (at level 61, right associativity) : action_scope.
Local Open Scope action_scope.

Definition outcomeWorld {A} (o : Outcome A) : World :=
  match o with Done _ w => w | Raised _ w => w end.

Definition modify (f : State -> State) : Action unit :=
  fun _ w => Done tt {| react := f (react w); randomCalls := randomCalls w;
                        clockCalls := clockCalls w; effects := effects w |}.

Definition perform (e : Effect) : Action unit :=
  fun _ w => Done tt {| react := react w; randomCalls := randomCalls w;
                        clockCalls := clockCalls w; effects := effects w ++ [e] |}.

(** The state of the render the handler closed over. *)
Definition snapshot : Action State := fun _ w => Done (react w) w.

Definition liftCompletion {A} (c : Completion A) : Action A :=
  fun _ w => match c with Return a => Done a w | Throw e => Raised e w end.

Definition setIsGenerating (b : bool) : Action unit :=
  modify (fun s => {| prompt := prompt s; style := style s; resolution := resolution s;
                      quality := quality s; count := count s; isGenerating := b;
                      status := status s; images := images s;
                      modalUrl := modalUrl s; modalPrompt := modalPrompt s |}).

Definition setStatus (st : option Status) : Action unit :=
  modify (fun s => {| prompt := prompt s; style := style s; resolution := resolution s;
                      quality := quality s; count := count s; isGenerating := isGenerating s;
                      status := st; images := images s;
                      modalUrl := modalUrl s; modalPrompt := modalPrompt s |}).

Definition setImages (l : list GeneratedImage) : Action unit :=
  modify (fun s => {| prompt := prompt s; style := style s; resolution := resolution s;
                      quality := quality s; count := count s; isGenerating := isGenerating s;
                      status := status s; images := l;
                      modalUrl := modalUrl s; modalPrompt := modalPrompt s |}).

Definition setModal (u : option jsstring) (p : jsstring) : Action unit :=
  modify (fun s => {| prompt := prompt s; style := style s; resolution := resolution s;
                      quality := quality s; count := count s; isGenerating := isGenerating s;
                      status := status s; images := images s;
                      modalUrl := u; modalPrompt := p |}).

Definition openModal (u p : jsstring) : Action unit := setModal (Some u) p.
Definition closeModal : Action unit := setModal None [].

Definition showStatus (t : StatusType) (message : jsstring) : Action unit :=
  let st := {| s_type := t; s_message := message |} in
  setStatus (Some st) ;;
  perform (Shown st) ;;
  match t with
  | error => ret tt
  | _ => perform (TimeoutSet 5000)
  end.

(** [window.crypto?.getRandomValues?.(new Uint32Array(1))[0] ?? Date.now()]:
    an element of a [Uint32Array] holds its value modulo 2^32. *)
Definition randomOrNow : Action number :=
  fun h w =>
    match crypto h with
    | Some rand =>
        Done (Num (rand (randomCalls w) mod 2 ^ 32))
             {| react := react w; randomCalls := S (randomCalls w);
                clockCalls := clockCalls w; effects := effects w |}
    | None =>
        Done (Num (DateNow h (clockCalls w)))
             {| react := react w; randomCalls := randomCalls w;
                clockCalls := S (clockCalls w); effects := effects w |}
    end.

(** [Array.from({ length: n }).map((_, i) => f i)], from index [i] on. *)
Fixpoint mapFrom {A} (f : nat -> Action A) (i n : nat) : Action (list A) :=
  match n with
  | O => ret []
  | S n' => x <- f i ;; xs <- mapFrom f (S i) n' ;; ret (x :: xs)
  end.

Definition qualityPreset (q : Quality) : jsstring :=
  match q with
  | ultra => lit "ultra-detailed, crisp focus, 8k"
  | high => lit "high detail, sharp focus"
  | standard => []
  end.

(** [`${stylePreset}, ${trimmed}${qualityPreset ? `, ${qualityPreset}` : ''}`] *)
Definition enhancedPrompt (st : StyleOption) (q : Quality) (trimmed : jsstring) : jsstring :=
  STYLE_PRESETS st ++ lit ", " ++ trimmed ++
  match qualityPreset q with
  | [] => []
  | qp => lit ", " ++ qp
  end.

Definition enhanceOf (q : Quality) : bool :=
  match q with standard => false | _ => true end.

(** The body of the [map] callback of [handleGenerate]. *)
Definition makeImage (s : State) (trimmed : jsstring) (dim : Dimensions) (i : nat)
  : Action GeneratedImage :=
  base <- randomOrNow ;;
  let seed := add base (Num (Z.of_nat i)) in
  url <- liftCompletion (buildPollinationsUrl
           {| p_prompt := enhancedPrompt (style s) (quality s) trimmed;
              p_width := width dim; p_height := height dim; p_seed := seed;
              p_model := Some (MODEL_BY_STYLE (style s));
              p_enhance := Some (enhanceOf (quality s)) |}) ;;
  ret {| g_url := url; g_prompt := trimmed; g_style := style s;
         g_resolution := resolution s; g_quality := quality s; g_seed := seed;
         g_width := width dim; g_height := height dim |}.

(** [handleGenerate] up to its [await]: [None] when it returned early,
    [Some next] when it built the batch [next] and waits for the pacing
    delay. *)
Definition handleGenerate : Action (option (list GeneratedImage)) :=
  s <- snapshot ;;
  let trimmed := trim (prompt s) in
  match trimmed with
  | [] =>
      showStatus error (lit "Please enter a description for your image.") ;;
      ret None
  | _ :: _ =>
      if isGenerating s then ret None
      else
        setIsGenerating true ;;
        setImages [] ;;
        showStatus info (lit "Generating your images...") ;;
        let dim := parseResolution (resolutionToken (resolution s)) in
        next <- mapFrom (makeImage s trimmed dim) 0 (count s) ;;
        perform (TimeoutSet 600) ;;
        ret (Some next)
  end.

(** [handleGenerate] after the delay. *)
Definition handleGenerateResume (next : list GeneratedImage) : Action unit :=
  setImages next ;;
  setIsGenerating false ;;
  let n := Z.of_nat (List.length next) in
  showStatus success
    (lit "Successfully generated " ++ String_ (Num n) ++ lit " image"
     ++ (if 1 <? n then lit "s" else []) ++ lit "!").

(** ** Thumbnails and downloads *)

(** [aspectStyle]: the [aspectRatio] of a thumbnail,
    [`${width} / ${height}`]. *)
Definition aspectStyle (res : Resolution) : jsstring :=
  let dim := parseResolution (resolutionToken res) in
  String_ (width dim) ++ lit " / " ++ String_ (height dim).

(** [s.substring(0, n)] *)
Definition substring0 (n : nat) (s : jsstring) : jsstring := firstn n s.

(** The [link.download] that [download(url, name)] sets:
    [`ai-generated-${sanitizeFilename(name)}-gemvie.jpg`]. *)
Definition downloadName (name : jsstring) : jsstring :=
  lit "ai-generated-" ++ sanitizeFilename name ++ lit "-gemvie.jpg".

(** The name the Download button of an image asks for:
    [download(img.url, img.prompt.substring(0, 30))]. *)
Definition imageDownloadName (g : GeneratedImage) : jsstring :=
  downloadName (substring0 30 (g_prompt g)).

(** ** Theme *)

Inductive Theme : Type := light | dark.

(** The string a [Theme] is. *)
Definition themeName (t : Theme) : jsstring :=
  match t with light => lit "light" | dark => lit "dark" end.

(** [localStorage]: each key with its value. *)
Definition Storage := list (jsstring * jsstring).

(** [localStorage.getItem(key)]; [None] is [null]. *)
Fixpoint getItem (key : jsstring) (st : Storage) : option jsstring :=
  match st with
  | [] => None
  | (k, v) :: t => if jsstring_eqb k key then Some v else getItem key t
  end.

(** [localStorage.setItem(key, value)] *)
Fixpoint setItem (key value : jsstring) (st : Storage) : Storage :=
  match st with
  | [] => [(key, value)]
  | (k, v) :: t =>
      if jsstring_eqb k key then (k, value) :: t else (k, v) :: setItem key value t
  end.

(** The initializer of the [theme] cell:
    [localStorage.getItem('theme') === 'light' ? 'light' : 'dark']. *)
Definition initialTheme (st : Storage) : Theme :=
  match getItem (lit "theme") st with
  | Some v => if jsstring_eqb v (lit "light") then light else dark
  | None => dark
  end.

(** What the theme effect writes: the [dark] class of the document element
    and the stored preference. *)
Record Page : Type := { darkClass : bool; storage : Storage }.

(** The effect run on [theme]:
    [classList.toggle('dark', theme === 'dark')] and
    [localStorage.setItem('theme', theme)]. *)
Definition themeEffect (t : Theme) (pg : Page) : Page :=
  {| darkClass := match t with dark => true | light => false end;
     storage := setItem (lit "theme") (themeName t) (storage pg) |}.

(** Mounting [App] on a page: the cell is initialized, then the effect runs. *)
Definition mountTheme (pg : Page) : Theme * Page :=
  let t := initialTheme (storage pg) in (t, themeEffect t pg).

(** ** The component as a transition system *)

(** What can happen to a mounted [App]: the change handlers of the form, a
    call of [handleGenerate] (the button or Ctrl+Enter in the text area),
    the end of the pacing delay of the oldest waiting [handleGenerate], a
    dismissal timer of [showStatus] firing, and the viewer handlers. *)
Inductive Event : Type :=
  | SetPrompt (text : jsstring)
  | SetStyle (st : StyleOption)
  | SetResolution (r : Resolution)
  | SetQuality (q : Quality)
  | SetCount (n : nat)
  | Generate
  | DelayElapsed
  | StatusTimeout
  | OpenModal (u p : jsstring)
  | CloseModal.

(** A mounted component: its world, the batches of the [handleGenerate]
    calls that wait for their delay, oldest first, and how many dismissal
    timers have fired. *)
Record App : Type := {
  world : World;
  waiting : list (list GeneratedImage);
  fired : nat
}.

Definition setInputs (f : State -> State) (a : App) : App :=
  {| world := {| react := f (react (world a)); randomCalls := randomCalls (world a);
                 clockCalls := clockCalls (world a); effects := effects (world a) |};
     waiting := waiting a; fired := fired a |}.

Definition isDismissal (e : Effect) : bool :=
  match e with TimeoutSet 5000 => true | _ => false end.

(** The dismissal timers set so far. *)
Definition dismissals (w : World) : nat := List.length (filter isDismissal (effects w)).

(** One event; [None] when it cannot happen (no call is waiting, no timer
    is left to fire). *)
Definition step (h : Host) (e : Event) (a : App) : option App :=
  match e with
  | SetPrompt text =>
      Some (setInputs (fun s =>
        {| prompt := text; style := style s; resolution := resolution s;
           quality := quality s; count := count s; isGenerating := isGenerating s;
           status := status s; images := images s;
           modalUrl := modalUrl s; modalPrompt := modalPrompt s |}) a)
  | SetStyle st =>
      Some (setInputs (fun s =>
        {| prompt := prompt s; style := st; resolution := resolution s;
           quality := quality s; count := count s; isGenerating := isGenerating s;
           status := status s; images := images s;
           modalUrl := modalUrl s; modalPrompt := modalPrompt s |}) a)
  | SetResolution r =>
      Some (setInputs (fun s =>
        {| prompt := prompt s; style := style s; resolution := r;
           quality := quality s; count := count s; isGenerating := isGenerating s;
           status := status s; images := images s;
           modalUrl := modalUrl s; modalPrompt := modalPrompt s |}) a)
  | SetQuality q =>
      Some (setInputs (fun s =>
        {| prompt := prompt s; style := style s; resolution := resolution s;
           quality := q; count := count s; isGenerating := isGenerating s;
           status := status s; images := images s;
           modalUrl := modalUrl s; modalPrompt := modalPrompt s |}) a)
  | SetCount n =>
      Some (setInputs (fun s =>
        {| prompt := prompt s; style := style s; resolution := resolution s;
           quality := quality s; count := n; isGenerating := isGenerating s;
           status := status s; images := images s;
           modalUrl := modalUrl s; modalPrompt := modalPrompt s |}) a)
  | Generate =>
      match handleGenerate h (world a) with
      | Done (Some next) w' =>
          Some {| world := w'; waiting := waiting a ++ [next]; fired := fired a |}
      | Done None w' | Raised _ w' =>
          Some {| world := w'; waiting := waiting a; fired := fired a |}
      end
  | DelayElapsed =>
      match waiting a with
      | next :: rest =>
          Some {| world := outcomeWorld (handleGenerateResume next h (world a));
                  waiting := rest; fired := fired a |}
      | [] => None
      end
  | StatusTimeout =>
      if (fired a <? dismissals (world a))%nat
      then Some {| world := outcomeWorld (setStatus None h (world a));
                   waiting := waiting a; fired := S (fired a) |}
      else None
  | OpenModal u p =>
      Some {| world := outcomeWorld (openModal u p h (world a));
              waiting := waiting a; fired := fired a |}
  | CloseModal =>
      Some {| world := outcomeWorld (closeModal h (world a));
              waiting := waiting a; fired := fired a |}
  end.

(** The events of a list, in order. *)
Fixpoint run (h : Host) (es : list Event) (a : App) : option App :=
  match es with
  | [] => Some a
  | e :: rest =>
      match step h e a with
      | Some a' => run h rest a'
      | None => None
      end
  end.

(** [App] as mounted: the initial values of its [useState] cells. *)
Definition mounted : App :=
  {| world := {| react := {| prompt := []; style := realistic; resolution := r512x512;
                             quality := standard; count := 1; isGenerating := false;
                             status := None; images := [];
                             modalUrl := None; modalPrompt := [] |};
                 randomCalls := 0; clockCalls := 0; effects := [] |};
     waiting := []; fired := 0 |}.

(** * Vocabulary of the properties *)

(** A non-empty run of decimal digits. *)
Definition isNumeral (ds : jsstring) : bool :=
  match ds with [] => false | _ => forallb isDigit ds end.

(** The integer a numeral denotes: each digit weighs a power of ten. *)
Fixpoint base10 (ds : jsstring) : Z :=
  match ds with
  | [] => 0
  | d :: r => (d - 48) * 10 ^ Z.of_nat (List.length r) + base10 r
  end.

(** Letters, digits and single hyphens only; [afterHyphen] forbids a hyphen
    in first position. *)
Fixpoint tidy (afterHyphen : bool) (s : jsstring) : bool :=
  match s with
  | [] => true
  | c :: r =>
      if isAlnum c then tidy false r
      else isHyphen c && negb afterHyphen && tidy true r
  end.

(** The maximal runs of letters and digits of a string: the run the string
    starts with (empty when it starts otherwise) and the later ones. *)
Definition pushRun (h : jsstring) (t : list jsstring) : list jsstring :=
  match h with [] => t | _ => h :: t end.

Fixpoint runsFrom (s : jsstring) : jsstring * list jsstring :=
  match s with
  | [] => ([], [])
  | c :: r =>
      let '(h, t) := runsFrom r in
      if isAlnum c then (c :: h, t) else ([], pushRun h t)
  end.

Definition alnumRuns (s : jsstring) : list jsstring :=
  let '(h, t) := runsFrom s in pushRun h t.

(** The words joined by single hyphens. *)
Definition joinHyphen (l : list jsstring) : jsstring :=
  match l with
  | [] => []
  | w :: t => w ++ flat_map (fun v => HYPHEN :: v) t
  end.

(** A code point of the Unicode range. *)
Definition inUnicode (x : scalar) : Prop :=
  match x with CodePoint cp => 0 <= cp < 1114112 | Unpaired _ => True end.

(** The characters the form serializer leaves as they are, space apart. *)
Definition isPlain (c : codeunit) : bool := isAlnum c || memZ c [42; 45; 46; 95].

(** The request of the start-up self-test of [App]. *)
Definition selftestParams : Params :=
  {| p_prompt := lit "test prompt"; p_width := Num 256; p_height := Num 256;
     p_seed := Num 123; p_model := Some (lit "flux"); p_enhance := None |}.

(** [?], [&], [=], [#] and [/]. *)
Definition isDelimiter (c : codeunit) : bool := memZ c [63; 38; 61; 35; 47].

Definition isOctet (b : byte) : Prop := 0 <= b < 256.

(** A request whose prompt holds spaces, quotes and every delimiter. *)
Definition punctuatedParams : Params :=
  {| p_prompt := lit "a cat & a dog? 50% 'off' = #1/2"; p_width := Num 512;
     p_height := Num 512; p_seed := Num 7; p_model := Some (lit "flux");
     p_enhance := Some true |}.

(** The value the [k]-th evaluation of [randomOrNow] gives, counted from the
    world [w]. *)
Definition baseAt (h : Host) (w : World) (k : nat) : Z :=
  match crypto h with
  | Some rand => rand (randomCalls w + k)%nat mod 2 ^ 32
  | None => DateNow h (clockCalls w + k)%nat
  end.

(** The world after [n] evaluations of [randomOrNow]. *)
Definition advance (h : Host) (w : World) (n : nat) : World :=
  match crypto h with
  | Some _ => {| react := react w; randomCalls := randomCalls w + n;
                 clockCalls := clockCalls w; effects := effects w |}
  | None => {| react := react w; randomCalls := randomCalls w;
               clockCalls := clockCalls w + n; effects := effects w |}
  end.

(** The image [makeImage] builds at index [i] from the draw [base], when the
    enhanced prompt encodes to [seg]. *)
Definition imageAt (s : State) (trimmed seg : jsstring) (dim : Dimensions)
    (base : Z) (i : nat) : GeneratedImage :=
  let seed := add (Num base) (Num (Z.of_nat i)) in
  {| g_url := ENDPOINT ++ seg ++ lit "?" ++ toString (searchParams
       {| p_prompt := enhancedPrompt (style s) (quality s) trimmed;
          p_width := width dim; p_height := height dim; p_seed := seed;
          p_model := Some (MODEL_BY_STYLE (style s));
          p_enhance := Some (enhanceOf (quality s)) |});
     g_prompt := trimmed; g_style := style s; g_resolution := resolution s;
     g_quality := quality s; g_seed := seed;
     g_width := width dim; g_height := height dim |}.

Definition emptyPromptStatus : Status :=
  {| s_type := error; s_message := lit "Please enter a description for your image." |}.

Definition generatingStatus : Status :=
  {| s_type := info; s_message := lit "Generating your images..." |}.

(** The state a rejected call leaves: only the status cell has changed. *)
Definition rejected (s : State) : State :=
  {| prompt := prompt s; style := style s; resolution := resolution s;
     quality := quality s; count := count s; isGenerating := isGenerating s;
     status := Some emptyPromptStatus; images := images s;
     modalUrl := modalUrl s; modalPrompt := modalPrompt s |}.

(** The state at the [await]: generating, no image, the info message. *)
Definition started (s : State) : State :=
  {| prompt := prompt s; style := style s; resolution := resolution s;
     quality := quality s; count := count s; isGenerating := true;
     status := Some generatingStatus; images := [];
     modalUrl := modalUrl s; modalPrompt := modalPrompt s |}.

(** The batch [handleGenerate] builds from the world [w] when the enhanced
    prompt encodes to [seg]. *)
Definition batch (h : Host) (w : World) (seg : jsstring) : list GeneratedImage :=
  let s := react w in
  map (fun k => imageAt s (trim (prompt s)) seg
                  (parseResolution (resolutionToken (resolution s))) (baseAt h w k) k)
      (seq 0 (count s)).

(** The world in which the batch gets built: generating, results cleared,
    the info message shown with its dismissal timer. *)
Definition begun (w : World) : World :=
  {| react := started (react w); randomCalls := randomCalls w;
     clockCalls := clockCalls w;
     effects := effects w ++ [Shown generatingStatus; TimeoutSet 5000] |}.

Definition addEffect (e : Effect) (w : World) : World :=
  {| react := react w; randomCalls := randomCalls w; clockCalls := clockCalls w;
     effects := effects w ++ [e] |}.

(** The session shows a validation failure. *)
Definition Failed (s : State) : Prop :=
  exists message, status s = Some {| s_type := error; s_message := message |}.

(** Sample sessions and hosts. *)
Definition idle (text : jsstring) (n : nat) : State :=
  {| prompt := text; style := realistic; resolution := r512x512; quality := standard;
     count := n; isGenerating := false; status := None; images := [];
     modalUrl := None; modalPrompt := [] |}.

Definition fresh (s : State) : World :=
  {| react := s; randomCalls := 0; clockCalls := 0; effects := [] |}.

Definition fixedHost (draw : Z) : Host :=
  {| crypto := Some (fun _ => draw); DateNow := fun _ => 1700000000000 |}.

Definition shownImage : GeneratedImage :=
  {| g_url := lit "https://image.pollinations.ai/prompt/a?width=1&height=1&seed=1&nologo=true";
     g_prompt := lit "a"; g_style := realistic; g_resolution := r512x512;
     g_quality := standard; g_seed := Num 1; g_width := Num 512; g_height := Num 512 |}.

Definition viewing : State :=
  {| prompt := lit " "; style := realistic; resolution := r512x512; quality := standard;
     count := 1; isGenerating := false; status := None; images := [shownImage];
     modalUrl := Some (g_url shownImage); modalPrompt := lit "a" |}.

Definition generating (text : jsstring) : State :=
  {| prompt := text; style := realistic; resolution := r512x512; quality := standard;
     count := 1; isGenerating := true; status := Some generatingStatus; images := [];
     modalUrl := None; modalPrompt := [] |}.

Definition successStatus (n : nat) : Status :=
  {| s_type := success;
     s_message := lit "Successfully generated " ++ String_ (Num (Z.of_nat n)) ++ lit " image"
                  ++ (if 1 <? Z.of_nat n then lit "s" else []) ++ lit "!" |}.

(** The session shows the batch [l]. *)
Definition Succeeded (l : list GeneratedImage) (s : State) : Prop :=
  images s = l /\ isGenerating s = false
  /\ status s = Some (successStatus (List.length l)).

(** The largest time value [Date.now()] can return. *)
Definition maxTime : Z := 8640000000000000.

(** A host whose first random draw is 5 and whose later ones are 4. *)
Definition collidingHost : Host :=
  {| crypto := Some (fun n => match n with O => 5 | _ => 4 end);
     DateNow := fun _ => 1700000000000 |}.

(** The string holds no [sep]. *)
Definition lacks (sep : codeunit) (s : jsstring) : bool :=
  forallb (fun c => negb (c =? sep)) s.

(** Empty, or starting with something that is not a digit. *)
Definition endsNumeral (junk : jsstring) : Prop :=
  match junk with c :: _ => isDigit c = false | [] => True end.

(** A code unit a file name of [download] can hold. *)
Definition isNameUnit (c : codeunit) : bool :=
  isLower c || isDigit c || isHyphen c || (c =? 46).

(** A printable ASCII character other than the space and [#]. *)
Definition isAddressUnit (c : codeunit) : bool := between 33 126 c && negb (c =? 35).

(** An address unit other than [?]. *)
Definition isQueryUnit (c : codeunit) : bool := isAddressUnit c && negb (c =? 63).

(** The same request with another seed. *)
Definition withSeed (p : Params) (seed : number) : Params :=
  {| p_prompt := p_prompt p; p_width := p_width p; p_height := p_height p;
     p_seed := seed; p_model := p_model p; p_enhance := p_enhance p |}.

(** A numeral, possibly after a minus sign. *)
Definition isSignedNumeral (s : jsstring) : bool :=
  match s with
  | c :: r => if c =? HYPHEN then isNumeral r else isNumeral s
  | [] => false
  end.

(** The state after the delay: the batch shown, with the success message. *)
Definition published (next : list GeneratedImage) (s : State) : State :=
  {| prompt := prompt s; style := style s; resolution := resolution s;
     quality := quality s; count := count s; isGenerating := false;
     status := Some (successStatus (List.length next)); images := next;
     modalUrl := modalUrl s; modalPrompt := modalPrompt s |}.

(** An image whose fields agree with each other: a trimmed, non-empty
    prompt, the dimensions of its resolution, and the address
    [buildPollinationsUrl] gives for its enhanced prompt, dimensions, seed,
    model and enhance flag. *)
Definition wellBuilt (g : GeneratedImage) : Prop :=
  g_prompt g <> []
  /\ trim (g_prompt g) = g_prompt g
  /\ parseResolution (resolutionToken (g_resolution g))
     = {| width := g_width g; height := g_height g |}
  /\ buildPollinationsUrl
       {| p_prompt := enhancedPrompt (g_style g) (g_quality g) (g_prompt g);
          p_width := g_width g; p_height := g_height g; p_seed := g_seed g;
          p_model := Some (MODEL_BY_STYLE (g_style g));
          p_enhance := Some (enhanceOf (g_quality g)) |}
     = Return (g_url g).

(** Two images that differ at most in seed and address. *)
Definition alike (g1 g2 : GeneratedImage) : Prop :=
  g_prompt g1 = g_prompt g2 /\ g_style g1 = g_style g2
  /\ g_resolution g1 = g_resolution g2 /\ g_quality g1 = g_quality g2.

(** A list of well-built images that are all alike. *)
Definition isBatch (l : list GeneratedImage) : Prop :=
  Forall wellBuilt l /\ forall g1 g2, In g1 l -> In g2 l -> alike g1 g2.

(** What every state of a mounted [App] satisfies. *)
Definition sound (a : App) : Prop :=
  (List.length (waiting a) <= 1)%nat
  /\ (waiting a <> [] -> isGenerating (react (world a)) = true)
  /\ (isGenerating (react (world a)) = true -> images (react (world a)) = [])
  /\ isBatch (images (react (world a)))
  /\ Forall isBatch (waiting a)
  /\ (fired a <= dismissals (world a))%nat.

(** The cells of the form. *)
Definition sameInputs (s s' : State) : Prop :=
  prompt s' = prompt s /\ style s' = style s /\ resolution s' = resolution s
  /\ quality s' = quality s /\ count s' = count s.

(** The cells of the viewer. *)
Definition sameViewer (s s' : State) : Prop :=
  modalUrl s' = modalUrl s /\ modalPrompt s' = modalPrompt s.

(** The cells of the session. *)
Definition sameSession (s s' : State) : Prop :=
  isGenerating s' = isGenerating s /\ status s' = status s /\ images s' = images s.

(** A host without [window.crypto] whose clock stands still. *)
Definition clockHost : Host :=
  {| crypto := None; DateNow := fun _ => 1700000000000 |}.

(** The UTF-16 code units of a code point. *)
Definition unitsOf (cp : Z) : jsstring :=
  if cp <? 65536 then [cp]
  else [55296 + (cp - 65536) / 1024; 56320 + (cp - 65536) mod 1024].

(** * Properties *)

Arguments isHyphen c : simpl never.
Arguments isAlnum c : simpl never.
Arguments isWhiteSpace c : simpl never.
Arguments isDigit c : simpl never.
Arguments lowerUnit c : simpl never.

(** Boolean comparisons on code units, turned into arithmetic. *)
Ltac unfold_classes :=
  unfold isUnreserved, isAlnum, isDigit, isUpper, isLower, isWhiteSpace, isHyphen,
    HYPHEN, isHighSurrogate, isLowSurrogate, memZ, existsb, between in *.

Ltac zbool :=
  unfold_classes;
  repeat match goal with
         | H : _ && _ = true |- _ => apply andb_true_iff in H; destruct H
         | H : _ || _ = false |- _ => apply orb_false_iff in H; destruct H
         | H : negb _ = true |- _ => apply negb_true_iff in H
         | H : negb _ = false |- _ => apply negb_false_iff in H
         | H : (_ <=? _) = true |- _ => apply Z.leb_le in H
         | H : (_ <=? _) = false |- _ => apply Z.leb_gt in H
         | H : (_ <? _) = true |- _ => apply Z.ltb_lt in H
         | H : (_ <? _) = false |- _ => apply Z.ltb_ge in H
         | H : (_ =? _) = true |- _ => apply Z.eqb_eq in H
         | H : (_ =? _) = false |- _ => apply Z.eqb_neq in H
         end.

(** Decide a boolean goal on code units by cases on the comparisons in it. *)
Ltac zcases :=
  zbool;
  repeat match goal with
         | |- context [?a <=? ?b] => destruct (Z.leb_spec a b)
         | |- context [?a <? ?b] => destruct (Z.ltb_spec a b)
         | |- context [?a =? ?b] => destruct (Z.eqb_spec a b)
         end;
  simpl; try reflexivity; try discriminate; try lia.

Section Strings.

Variable p : codeunit -> bool.

Lemma dropWhile_keeps (s : jsstring) :
  match s with c :: _ => p c = false | [] => True end -> dropWhile p s = s.
Proof. destruct s as [|c r]; simpl; [reflexivity|]. intros ->. reflexivity. Qed.

Lemma dropWhileEnd_keeps (s : jsstring) :
  forallb (fun c => negb (p c)) s = true -> dropWhileEnd p s = s.
Proof.
  induction s as [|c r IH]; simpl; [reflexivity|].
  intros H. apply andb_true_iff in H. destruct H as [Hc Hr].
  rewrite (IH Hr). apply negb_true_iff in Hc. rewrite Hc.
  destruct r; reflexivity.
Qed.

Lemma dropWhile_idem (s : jsstring) : dropWhile p (dropWhile p s) = dropWhile p s.
Proof.
  induction s as [|c r IH]; simpl; [reflexivity|].
  destruct (p c) eqn:E; [exact IH|]. simpl. rewrite E. reflexivity.
Qed.

Lemma dropWhileEnd_idem (s : jsstring) :
  dropWhileEnd p (dropWhileEnd p s) = dropWhileEnd p s.
Proof.
  induction s as [|c r IH]; simpl; [reflexivity|].
  destruct (dropWhileEnd p r) as [|d r'] eqn:E.
  - destruct (p c) eqn:Ec; simpl; [reflexivity|]. rewrite Ec. reflexivity.
  - change (dropWhileEnd p (c :: d :: r')) with
      (match dropWhileEnd p (d :: r') with [] => if p c then [] else [c] | x => c :: x end).
    rewrite IH. reflexivity.
Qed.

(** Dropping at the end leaves a head that [p] rejects in place. *)
Lemma dropWhileEnd_head (s : jsstring) :
  dropWhile p s = s -> dropWhile p (dropWhileEnd p s) = dropWhileEnd p s.
Proof.
  destruct s as [|c r]; simpl; [reflexivity|].
  destruct (p c) eqn:Ec.
  - intros H. exfalso.
    assert (L : (List.length (dropWhile p r) <= List.length r)%nat).
    { clear. induction r as [|d r IH]; simpl; [lia|]. destruct (p d); simpl; lia. }
    rewrite H in L. simpl in L. lia.
  - intros _. destruct (dropWhileEnd p r); simpl; rewrite Ec; reflexivity.
Qed.

End Strings.

(** ** Resolution codec *)

Lemma digitsValue_base10 (ds : jsstring) : digitsValue ds = base10 ds.
Proof.
  unfold digitsValue.
  assert (G : forall acc,
    fold_left (fun a d => a * 10 + (d - 48)) ds acc
    = acc * 10 ^ Z.of_nat (List.length ds) + base10 ds).
  { induction ds as [|d r IH]; intros acc; simpl fold_left.
    - simpl. lia.
    - rewrite IH. cbn [base10 List.length]. rewrite Nat2Z.inj_succ, Z.pow_succ_r by lia. ring. }
  rewrite G. lia.
Qed.

Lemma base10_nonneg (ds : jsstring) : forallb isDigit ds = true -> 0 <= base10 ds.
Proof.
  induction ds as [|d r IH]; simpl; [lia|]. intros H.
  apply andb_true_iff in H. destruct H as [Hd Hr]. specialize (IH Hr).
  assert (0 <= 10 ^ Z.of_nat (List.length r)) by (apply Z.pow_nonneg; lia).
  zbool. nia.
Qed.

Lemma takeDigits_all (ds : jsstring) : forallb isDigit ds = true -> takeDigits ds = ds.
Proof.
  induction ds as [|d r IH]; simpl; [reflexivity|]. intros H.
  apply andb_true_iff in H. destruct H as [Hd Hr]. rewrite Hd, IH by assumption. reflexivity.
Qed.

Lemma digit_not_space (c : codeunit) : isDigit c = true -> isWhiteSpace c = false.
Proof. intros H. zcases. Qed.

Lemma trim_numeral (ds : jsstring) : forallb isDigit ds = true -> trim ds = ds.
Proof.
  intros H. unfold trim, trimStart, trimEnd.
  rewrite dropWhile_keeps.
  - apply dropWhileEnd_keeps. rewrite forallb_forall in *. intros c Hc.
    rewrite digit_not_space; auto.
  - destruct ds as [|c r]; [exact I|]. simpl in H. apply andb_true_iff in H.
    apply digit_not_space, H.
Qed.

Lemma toNumber_safe (z : Z) : 0 <= z < 2 ^ 53 -> toNumber z = Num z.
Proof.
  intros [H0 H1]. unfold toNumber, roundToDouble.
  destruct (Z.ltb_spec z 0); [lia|]. destruct (Z.ltb_spec z (2 ^ 53)); [reflexivity|lia].
Qed.

Lemma parseInt10_numeral (ds : jsstring) :
  isNumeral ds = true -> parseInt10 ds = toNumber (base10 ds).
Proof.
  unfold isNumeral. destruct ds as [|d r]; [discriminate|]. intros H.
  unfold parseInt10, trimStart. rewrite dropWhile_keeps.
  2:{ simpl in H. apply andb_true_iff in H. apply digit_not_space, H. }
  assert (Hd : isDigit d = true) by (simpl in H; apply andb_true_iff in H; apply H).
  replace (d =? 45) with false by (symmetry; zcases).
  replace (d =? 43) with false by (symmetry; zcases).
  rewrite takeDigits_all by assumption. rewrite digitsValue_base10. reflexivity.
Qed.

Lemma split_numeral (ds : jsstring) :
  forallb isDigit ds = true -> split 120 ds = [ds].
Proof.
  induction ds as [|d r IH]; simpl; [reflexivity|]. intros H.
  apply andb_true_iff in H. destruct H as [Hd Hr].
  replace (d =? 120) with false by (symmetry; zcases).
  rewrite IH by assumption. reflexivity.
Qed.

Lemma split_token (dw dh : jsstring) :
  forallb isDigit dw = true -> forallb isDigit dh = true ->
  split 120 (dw ++ lit "x" ++ dh) = [dw; dh].
Proof.
  intros Hw Hh. induction dw as [|d r IH]; simpl.
  - rewrite split_numeral by assumption. reflexivity.
  - simpl in Hw. apply andb_true_iff in Hw. destruct Hw as [Hd Hr].
    replace (d =? 120) with false by (symmetry; zcases).
    change (r ++ 120 :: dh) with (r ++ lit "x" ++ dh). rewrite IH by assumption. reflexivity.
Qed.

Lemma numeral_digits (ds : jsstring) : isNumeral ds = true -> forallb isDigit ds = true.
Proof. destruct ds; [discriminate|exact (fun H => H)]. Qed.

(** What [parseResolution] returns on any token made of two numerals around
    an [x]: the Number values of the two integers. *)
Lemma parseResolution_token (dw dh : jsstring) :
  isNumeral dw = true -> isNumeral dh = true ->
  parseResolution (dw ++ lit "x" ++ dh)
  = {| width := toNumber (base10 dw); height := toNumber (base10 dh) |}.
Proof.
  intros Hw Hh. unfold parseResolution.
  rewrite split_token by (apply numeral_digits; assumption).
  cbn [map nth]. rewrite !trim_numeral by (apply numeral_digits; assumption).
  rewrite !parseInt10_numeral by assumption. reflexivity.
Qed.

(** C5 (as amended): for every token made of two decimal numerals around the
    literal [x] whose integers W and H are below 2^53, [parseResolution]
    returns exactly [{width: W, height: H}]; in particular
    [parseResolution("1024x768")] is [{width: 1024, height: 768}]. *)
Theorem parseResolution_exact (dw dh : jsstring) :
  isNumeral dw = true -> isNumeral dh = true ->
  base10 dw < 2 ^ 53 -> base10 dh < 2 ^ 53 ->
  parseResolution (dw ++ lit "x" ++ dh)
  = {| width := Num (base10 dw); height := Num (base10 dh) |}.
Proof.
  intros Hw Hh Bw Bh. rewrite parseResolution_token by assumption.
  rewrite !toNumber_safe; [reflexivity| |];
    (split; [apply base10_nonneg, numeral_digits; assumption | assumption]).
Qed.

Lemma parseResolution_exact_witness :
  parseResolution (lit "1024x768") = {| width := Num 1024; height := Num 768 |}.
Proof.
  apply (parseResolution_exact (lit "1024") (lit "768")); vm_compute; reflexivity.
Defined.

(** C5 as stated fails: a numeral beyond 2^53 is rounded to the nearest
    double, here 9007199254740993 to 9007199254740992. *)
Lemma parseResolution_exact_counterexample :
  ~ (forall dw dh : jsstring,
       isNumeral dw = true -> isNumeral dh = true ->
       parseResolution (dw ++ lit "x" ++ dh)
       = {| width := Num (base10 dw); height := Num (base10 dh) |}).
Proof.
  intros H. specialize (H (lit "9007199254740993") (lit "1") eq_refl eq_refl).
  vm_compute in H. discriminate H.
Qed.

(** Printing a non-negative integer and reading the digits back gives the
    integer. *)
Lemma digitsFuel_value (fuel : nat) (n : Z) (acc : jsstring) :
  0 <= n < 2 ^ Z.of_nat (S fuel) ->
  base10 (digitsFuel fuel n acc) = n * 10 ^ Z.of_nat (List.length acc) + base10 acc.
Proof.
  revert n acc. induction fuel as [|f IH]; intros n acc H; cbn [digitsFuel].
  - change (2 ^ Z.of_nat 1) with 2 in H. cbn [base10].
    rewrite Z.mod_small by lia. f_equal. lia.
  - rewrite Nat2Z.inj_succ, Z.pow_succ_r in H by lia.
    destruct (Z.ltb_spec n 10) as [L|L].
    + cbn [base10]. rewrite Z.mod_small by lia. f_equal. lia.
    + rewrite IH by (split; [apply Z.div_pos; lia | apply Z.div_lt_upper_bound; lia]).
      cbn [base10 List.length]. rewrite Nat2Z.inj_succ, Z.pow_succ_r by lia.
      pose proof (Z.div_mod n 10 ltac:(lia)) as D.
      set (q := n / 10) in *. set (m := n mod 10) in *.
      clearbody q m. rewrite D. ring.
Qed.

Lemma digits_value (n : Z) : 0 <= n -> digitsValue (digits n) = n.
Proof.
  intros H. rewrite digitsValue_base10. unfold digits.
  destruct (Z.eq_dec n 0) as [->|N]; [reflexivity|].
  rewrite digitsFuel_value.
  - cbn [List.length base10]. change (10 ^ Z.of_nat 0) with 1. lia.
  - split; [exact H|]. rewrite Nat2Z.inj_succ, Z2Nat.id by apply Z.log2_nonneg.
    apply Z.log2_spec. lia.
Qed.

(** The start-up self-tests of [App]. *)
Example selftest_parse_1024x768 :
  parseResolution (lit "1024x768") = {| width := Num 1024; height := Num 768 |}.
Proof. reflexivity. Qed.

Example selftest_parse_512x512 :
  parseResolution (lit "512x512") = {| width := Num 512; height := Num 512 |}.
Proof. reflexivity. Qed.

Example selftest_sanitize_basic : sanitizeFilename (lit "Hello World!") = lit "hello-world".
Proof. reflexivity. Qed.

Example selftest_sanitize_collapse : sanitizeFilename (lit "A  B   C") = lit "a-b-c".
Proof. reflexivity. Qed.

Example selftest_build :
  buildPollinationsUrl selftestParams
  = Return (lit "https://image.pollinations.ai/prompt/test%20prompt?width=256&height=256&seed=123&nologo=true&model=flux").
Proof. vm_compute. reflexivity. Qed.

(** A malformed token is not rejected: the missing side is [undefined], a
    side without digits is [NaN]. *)
Example parse_malformed :
  parseResolution (lit "512") = {| width := Num 512; height := Undefined |}
  /\ parseResolution (lit "x512") = {| width := NaN; height := Num 512 |}.
Proof. split; reflexivity. Qed.

(** ** Filename sanitizer *)

Lemma hyphen_not_alnum (c : codeunit) : isHyphen c = true -> isAlnum c = false.
Proof. intros H. zcases. Qed.

Lemma tidy_replaceRuns (b : bool) (x : jsstring) : tidy b (replaceRuns b x) = true.
Proof.
  revert b. induction x as [|c r IH]; intros b; simpl; [reflexivity|].
  destruct (isAlnum c) eqn:E.
  - simpl. rewrite E. apply IH.
  - destruct b; [apply IH|]. simpl. apply IH.
Qed.

Lemma replaceRuns_tidy (b : bool) (s : jsstring) : tidy b s = true -> replaceRuns b s = s.
Proof.
  revert b. induction s as [|c r IH]; intros b; simpl; [reflexivity|].
  destruct (isAlnum c) eqn:E.
  - intros H. rewrite IH by assumption. reflexivity.
  - intros H. apply andb_true_iff in H. destruct H as [H Hr].
    apply andb_true_iff in H. destruct H as [Hc Hb].
    apply negb_true_iff in Hb. subst b. rewrite IH by assumption.
    apply Z.eqb_eq in Hc. rewrite Hc. reflexivity.
Qed.

Lemma tidy_weaken (s : jsstring) : tidy true s = true -> tidy false s = true.
Proof.
  destruct s as [|c r]; simpl; [reflexivity|].
  destruct (isAlnum c); [exact (fun H => H)|]. rewrite andb_false_r. discriminate.
Qed.

Lemma tidy_dropWhile (b : bool) (s : jsstring) :
  tidy b s = true -> tidy true (dropWhile isHyphen s) = true.
Proof.
  revert b. induction s as [|c r IH]; intros b; simpl; [reflexivity|].
  destruct (isHyphen c) eqn:Eh.
  - rewrite (hyphen_not_alnum c Eh). intros H. apply andb_true_iff in H.
    apply (IH true), H.
  - simpl. destruct (isAlnum c); [exact (fun H => H)|]. rewrite Eh. discriminate.
Qed.

Lemma tidy_dropWhileEnd (b : bool) (s : jsstring) :
  tidy b s = true -> tidy b (dropWhileEnd isHyphen s) = true.
Proof.
  revert b. induction s as [|c r IH]; intros b; simpl; [reflexivity|].
  intros H. destruct (dropWhileEnd isHyphen r) as [|d r'] eqn:E.
  - destruct (isHyphen c) eqn:Eh; [reflexivity|]. simpl.
    destruct (isAlnum c); [reflexivity|]. simpl in H. discriminate H.
  - cbn [tidy]. destruct (isAlnum c).
    + apply IH in H. exact H.
    + apply andb_true_iff in H. destruct H as [H1 H2]. rewrite H1. apply IH in H2.
      exact H2.
Qed.

Lemma stripHyphens_idem (s : jsstring) : stripHyphens (stripHyphens s) = stripHyphens s.
Proof.
  unfold stripHyphens.
  rewrite (dropWhileEnd_head isHyphen (dropWhile isHyphen s)) by apply dropWhile_idem.
  apply dropWhileEnd_idem.
Qed.

Lemma tidy_strip_replace (x : jsstring) :
  tidy true (stripHyphens (replaceRuns false x)) = true.
Proof.
  unfold stripHyphens. apply tidy_dropWhileEnd.
  apply (tidy_dropWhile false), tidy_replaceRuns.
Qed.

(** Lower-casing commutes with the two replacements. *)
Lemma isAlnum_lowerUnit (c : codeunit) : isAlnum (lowerUnit c) = isAlnum c.
Proof. unfold lowerUnit. destruct (isUpper c) eqn:E; zcases. Qed.

Lemma isHyphen_lowerUnit (c : codeunit) : isHyphen (lowerUnit c) = isHyphen c.
Proof. unfold lowerUnit. destruct (isUpper c) eqn:E; zcases. Qed.

Lemma lowerUnit_idem (c : codeunit) : lowerUnit (lowerUnit c) = lowerUnit c.
Proof. unfold lowerUnit. destruct (isUpper c) eqn:E; zcases. Qed.

Lemma lowerUnit_range (c : codeunit) :
  isAlnum c || isHyphen c = true ->
  isLower (lowerUnit c) || isDigit (lowerUnit c) || isHyphen (lowerUnit c) = true.
Proof.
  unfold lowerUnit. intros H. destruct (isUpper c) eqn:E; [zcases|].
  apply orb_true_iff in H. destruct H as [H|H]; [|rewrite H; apply orb_true_r].
  unfold isAlnum in H. rewrite E, orb_false_r in H.
  apply orb_true_iff in H. destruct H as [H|H]; rewrite H; [rewrite orb_true_r|]; reflexivity.
Qed.

Lemma replaceRuns_lower (b : bool) (s : jsstring) :
  replaceRuns b (toLowerCase s) = toLowerCase (replaceRuns b s).
Proof.
  revert b. induction s as [|c r IH]; intros b; simpl; [reflexivity|].
  rewrite isAlnum_lowerUnit. destruct (isAlnum c); simpl; [rewrite IH; reflexivity|].
  destruct b; rewrite IH; reflexivity.
Qed.

Lemma dropWhile_lower (s : jsstring) :
  dropWhile isHyphen (toLowerCase s) = toLowerCase (dropWhile isHyphen s).
Proof.
  induction s as [|c r IH]; simpl; [reflexivity|].
  rewrite isHyphen_lowerUnit. destruct (isHyphen c); [exact IH|reflexivity].
Qed.

Lemma dropWhileEnd_lower (s : jsstring) :
  dropWhileEnd isHyphen (toLowerCase s) = toLowerCase (dropWhileEnd isHyphen s).
Proof.
  induction s as [|c r IH]; simpl; [reflexivity|].
  rewrite IH, isHyphen_lowerUnit.
  destruct (dropWhileEnd isHyphen r); simpl; [destruct (isHyphen c)|]; reflexivity.
Qed.

Lemma stripHyphens_lower (s : jsstring) :
  stripHyphens (toLowerCase s) = toLowerCase (stripHyphens s).
Proof. unfold stripHyphens. rewrite dropWhile_lower, dropWhileEnd_lower. reflexivity. Qed.

Lemma toLowerCase_idem (s : jsstring) : toLowerCase (toLowerCase s) = toLowerCase s.
Proof.
  unfold toLowerCase. rewrite map_map. apply map_ext. intros c. apply lowerUnit_idem.
Qed.

Lemma sanitizeFilename_idem (x : jsstring) :
  sanitizeFilename (sanitizeFilename x) = sanitizeFilename x.
Proof.
  unfold sanitizeFilename.
  rewrite replaceRuns_lower, stripHyphens_lower, toLowerCase_idem.
  rewrite (replaceRuns_tidy false) by apply tidy_weaken, tidy_strip_replace.
  rewrite stripHyphens_idem. reflexivity.
Qed.

Lemma sanitizeFilename_lower (x : jsstring) :
  sanitizeFilename (map lowerUnit x) = sanitizeFilename x.
Proof.
  change (map lowerUnit x) with (toLowerCase x). unfold sanitizeFilename.
  rewrite replaceRuns_lower, stripHyphens_lower, toLowerCase_idem. reflexivity.
Qed.

(** Two strings that differ only in the case of ASCII letters. *)
Lemma sanitizeFilename_case (x y : jsstring) :
  map lowerUnit x = map lowerUnit y -> sanitizeFilename x = sanitizeFilename y.
Proof.
  intros H. rewrite <- (sanitizeFilename_lower x), <- (sanitizeFilename_lower y), H.
  reflexivity.
Qed.

(** The runs of letters and digits survive both replacements. *)
Lemma runs_replaceRuns (x : jsstring) :
  runsFrom (replaceRuns false x) = runsFrom x
  /\ alnumRuns (replaceRuns true x) = alnumRuns x.
Proof.
  induction x as [|c r [IH1 IH2]]; [split; reflexivity|].
  unfold alnumRuns in *. simpl. destruct (isAlnum c) eqn:E.
  - simpl. rewrite E, IH1. split; reflexivity.
  - simpl. replace (isAlnum HYPHEN) with false by reflexivity.
    destruct (runsFrom r) as [h t]. destruct (runsFrom (replaceRuns true r)) as [h' t'].
    simpl. rewrite IH2. split; reflexivity.
Qed.

Lemma runs_dropWhile (s : jsstring) :
  alnumRuns (dropWhile isHyphen s) = alnumRuns s.
Proof.
  induction s as [|c r IH]; [reflexivity|]. simpl.
  destruct (isHyphen c) eqn:Eh; [|reflexivity].
  rewrite IH. unfold alnumRuns. simpl. rewrite (hyphen_not_alnum c Eh).
  destruct (runsFrom r). reflexivity.
Qed.

Lemma runs_dropWhileEnd (s : jsstring) :
  runsFrom (dropWhileEnd isHyphen s) = runsFrom s.
Proof.
  induction s as [|c r IH]; [reflexivity|]. simpl.
  destruct (dropWhileEnd isHyphen r) as [|d r'] eqn:E.
  - rewrite <- IH. simpl. destruct (isHyphen c) eqn:Eh.
    + rewrite (hyphen_not_alnum c Eh). reflexivity.
    + reflexivity.
  - rewrite <- IH. reflexivity.
Qed.

Lemma runsFrom_head (c : codeunit) (r : jsstring) :
  isAlnum c = true -> fst (runsFrom (c :: r)) <> [].
Proof. intros E. simpl. rewrite E. destruct (runsFrom r). discriminate. Qed.

(** A tidy string without a trailing hyphen is its runs joined by hyphens. *)
Lemma tidy_join (b : bool) (u : jsstring) :
  tidy b u = true -> dropWhileEnd isHyphen u = u ->
  u = fst (runsFrom u) ++ flat_map (fun v => HYPHEN :: v) (snd (runsFrom u)).
Proof.
  revert b. induction u as [|c r IH]; intros b Ht He; [reflexivity|].
  assert (Hr : dropWhileEnd isHyphen r = r).
  { simpl in He. destruct (dropWhileEnd isHyphen r) as [|d r'] eqn:E.
    - destruct (isHyphen c); [discriminate|]. injection He as <-. reflexivity.
    - injection He as <-. reflexivity. }
  simpl in Ht. simpl. destruct (isAlnum c) eqn:E.
  - specialize (IH false Ht Hr). destruct (runsFrom r) as [h t]. simpl in *.
    rewrite <- IH. reflexivity.
  - apply andb_true_iff in Ht. destruct Ht as [Hc Ht].
    apply andb_true_iff in Hc. destruct Hc as [Hc _].
    destruct r as [|d r'].
    + simpl in He. rewrite Hc in He. discriminate.
    + assert (Ed : isAlnum d = true).
      { simpl in Ht. destruct (isAlnum d); [reflexivity|]. rewrite andb_false_r in Ht.
        discriminate. }
      pose proof (runsFrom_head d r' Ed) as Hne.
      specialize (IH true Ht Hr). destruct (runsFrom (d :: r')) as [h t]. simpl in *.
      destruct h as [|x h]; [contradiction|]. simpl.
      apply Z.eqb_eq in Hc. rewrite Hc. f_equal. exact IH.
Qed.

Lemma strip_replace_runs (x : jsstring) :
  stripHyphens (replaceRuns false x) = joinHyphen (alnumRuns x).
Proof.
  pose proof (tidy_strip_replace x) as Ht.
  assert (He : dropWhileEnd isHyphen (stripHyphens (replaceRuns false x))
               = stripHyphens (replaceRuns false x))
    by apply dropWhileEnd_idem.
  assert (Hruns : runsFrom (stripHyphens (replaceRuns false x))
                  = runsFrom (dropWhile isHyphen (replaceRuns false x)))
    by apply runs_dropWhileEnd.
  assert (Ha : alnumRuns (stripHyphens (replaceRuns false x)) = alnumRuns x).
  { unfold alnumRuns at 1. rewrite Hruns.
    change (alnumRuns (dropWhile isHyphen (replaceRuns false x)) = alnumRuns x).
    rewrite runs_dropWhile. unfold alnumRuns. rewrite (proj1 (runs_replaceRuns x)).
    reflexivity. }
  rewrite <- Ha. set (u := stripHyphens (replaceRuns false x)) in *.
  pose proof (tidy_join true u Ht He) as Hu.
  destruct u as [|c r]; [reflexivity|].
  assert (Ec : isAlnum c = true).
  { simpl in Ht. destruct (isAlnum c); [reflexivity|]. rewrite andb_false_r in Ht.
    discriminate. }
  pose proof (runsFrom_head c r Ec) as Hne. unfold alnumRuns.
  destruct (runsFrom (c :: r)) as [h t]. simpl in *.
  destruct h as [|y h]; [contradiction|]. exact Hu.
Qed.

Lemma sanitizeFilename_chars (x : jsstring) (c : codeunit) :
  In c (sanitizeFilename x) -> isLower c || isDigit c || isHyphen c = true.
Proof.
  unfold sanitizeFilename, toLowerCase. rewrite in_map_iff. intros [d [<- Hd]].
  apply lowerUnit_range.
  assert (G : forall b s, tidy b s = true -> forall e, In e s -> isAlnum e || isHyphen e = true).
  { intros b s. revert b. induction s as [|a s IH]; intros b Ht e He; [destruct He|].
    destruct He as [He|He].
    - subst a. simpl in Ht. destruct (isAlnum e); [reflexivity|].
      apply andb_true_iff in Ht. destruct Ht as [Ht _]. apply andb_true_iff in Ht.
      simpl. apply Ht.
    - simpl in Ht. destruct (isAlnum a); [apply (IH false Ht e He)|].
      apply andb_true_iff in Ht. apply (IH true (proj2 Ht) e He). }
  apply (G true _ (tidy_strip_replace x) d Hd).
Qed.

(** C6: [sanitizeFilename] is idempotent on every string and gives the same
    result for two strings that differ only in the case of ASCII letters;
    its result is the maximal runs of ASCII letters and digits of the input,
    lower-cased and joined by single hyphens, so every maximal run of other
    characters between two of them has become one hyphen and the leading and
    trailing ones are gone; the result holds only lower-case letters, digits
    and hyphens; [sanitize("Hello World!")] is ["hello-world"] and
    [sanitize("A  B   C")] is ["a-b-c"]. *)
Theorem sanitizeFilename_spec :
  (forall x, sanitizeFilename (sanitizeFilename x) = sanitizeFilename x)
  /\ (forall x y, map lowerUnit x = map lowerUnit y ->
                  sanitizeFilename x = sanitizeFilename y)
  /\ (forall x, sanitizeFilename x = toLowerCase (joinHyphen (alnumRuns x)))
  /\ (forall x c, In c (sanitizeFilename x) -> isLower c || isDigit c || isHyphen c = true)
  /\ sanitizeFilename (lit "Hello World!") = lit "hello-world"
  /\ sanitizeFilename (lit "A  B   C") = lit "a-b-c".
Proof.
  split; [exact sanitizeFilename_idem|].
  split; [exact sanitizeFilename_case|].
  split; [intros x; unfold sanitizeFilename; rewrite strip_replace_runs; reflexivity|].
  split; [exact sanitizeFilename_chars|].
  split; reflexivity.
Qed.

(** ** Request builder *)

Lemma encodeScalars_total (l : list scalar) :
  forallb isCodePoint l = true -> exists seg, encodeScalars l = Return seg.
Proof.
  induction l as [|x l IH]; simpl; [intros _; eexists; reflexivity|].
  destruct x as [cp|cu]; [|discriminate]. simpl. intros H.
  destruct (IH H) as [seg ->]. eexists; reflexivity.
Qed.

Lemma encodeScalars_wellFormed (l : list scalar) (seg : jsstring) :
  encodeScalars l = Return seg -> forallb isCodePoint l = true.
Proof.
  revert seg. induction l as [|x l IH]; simpl; [reflexivity|]. intros seg.
  destruct x as [cp|cu]; [|discriminate]. simpl.
  destruct (encodeScalars l) as [e|]; [|discriminate]. intros _. apply (IH e eq_refl).
Qed.

Lemma encodeURIComponent_total (s : jsstring) :
  isWellFormed s = true -> exists seg, encodeURIComponent s = Return seg.
Proof. apply encodeScalars_total. Qed.

(** Induction along [codePoints], which consumes one or two code units. *)
Lemma jsstring_pair_ind (P : jsstring -> Prop) :
  P [] ->
  (forall c r, P r -> (forall d r', r = d :: r' -> P r') -> P (c :: r)) ->
  forall s, P s.
Proof.
  intros H0 Hs s.
  assert (G : P s /\ (forall d r', s = d :: r' -> P r')).
  { induction s as [|c r [IH1 IH2]].
    - split; [exact H0|]. intros d r' E. discriminate E.
    - split; [apply Hs; assumption|]. intros d r' E. injection E as _ <-. exact IH1. }
  apply G.
Qed.

Lemma codePoints_range (s : jsstring) :
  isString s = true -> Forall inUnicode (codePoints s).
Proof.
  induction s as [|c r IH1 IH2] using jsstring_pair_ind; [constructor|].
  unfold isString. cbn [forallb codePoints]. intros H.
  apply andb_true_iff in H. destruct H as [Hc Hr].
  destruct (isHighSurrogate c) eqn:Eh.
  - destruct r as [|d r']; [repeat constructor|].
    destruct (isLowSurrogate d) eqn:El.
    + constructor.
      * simpl. zbool. lia.
      * apply (IH2 d r' eq_refl). cbn [forallb] in Hr. apply andb_true_iff in Hr. apply Hr.
    + constructor; [exact I|]. apply IH1, Hr.
  - destruct (isLowSurrogate c); constructor; try exact I; try (apply IH1, Hr).
    simpl. zbool. lia.
Qed.

Lemma urlencoded_plain (s : jsstring) : forallb isPlain s = true -> urlencoded s = s.
Proof.
  unfold urlencoded, serialize, toUSV. induction s as [|c r IH]; [reflexivity|].
  cbn [forallb]. intros H. apply andb_true_iff in H. destruct H as [Hc Hr].
  cbn [codePoints].
  replace (isHighSurrogate c) with false by (symmetry; unfold isPlain in Hc; revert Hc; zcases).
  replace (isLowSurrogate c) with false by (symmetry; unfold isPlain in Hc; revert Hc; zcases).
  cbn [map flat_map]. rewrite flat_map_app, (IH Hr).
  replace (utf8 c) with [c]
    by (unfold utf8; unfold isPlain in Hc; revert Hc; zcases).
  cbn [flat_map app]. unfold urlencodedByte. fold (isPlain c). rewrite Hc.
  replace (c =? 32) with false by (symmetry; unfold isPlain in Hc; revert Hc; zcases).
  reflexivity.
Qed.

Lemma digitsFuel_plain (fuel : nat) (n : Z) (acc : jsstring) :
  forallb isPlain acc = true -> forallb isPlain (digitsFuel fuel n acc) = true.
Proof.
  revert n acc. induction fuel as [|f IH]; intros n acc H; cbn [digitsFuel].
  - cbn [forallb]. rewrite H, andb_true_r.
    pose proof (Z.mod_pos_bound n 10 ltac:(lia)). unfold isPlain. zcases.
  - assert (G : forallb isPlain ((48 + n mod 10) :: acc) = true).
    { cbn [forallb]. rewrite H, andb_true_r.
      pose proof (Z.mod_pos_bound n 10 ltac:(lia)). unfold isPlain. zcases. }
    destruct (n <? 10); [exact G|]. apply IH, G.
Qed.

Lemma digitsFuel_nonempty (fuel : nat) (n : Z) (acc : jsstring) :
  digitsFuel fuel n acc <> [].
Proof.
  revert n acc. induction fuel as [|f IH]; intros n acc; cbn [digitsFuel]; [discriminate|].
  destruct (n <? 10); [discriminate|apply IH].
Qed.

Lemma String_plain (x : number) : forallb isPlain (String_ x) = true.
Proof.
  destruct x as [z| |[|]|]; try reflexivity. unfold String_, digits.
  destruct (z <? 0); [cbn [forallb]; apply andb_true_iff; split; [reflexivity|]|];
    apply digitsFuel_plain; reflexivity.
Qed.


(** A string without surrogates is its own [USVString]. *)
Lemma toUSV_plain (s : jsstring) : forallb isPlain s = true -> toUSV s = s.
Proof.
  unfold toUSV. induction s as [|c r IH]; [reflexivity|].
  cbn [forallb]. intros H. apply andb_true_iff in H. destruct H as [Hc Hr].
  cbn [codePoints].
  replace (isHighSurrogate c) with false by (symmetry; unfold isPlain in Hc; revert Hc; zcases).
  replace (isLowSurrogate c) with false by (symmetry; unfold isPlain in Hc; revert Hc; zcases).
  cbn [map]. rewrite (IH Hr). reflexivity.
Qed.

Lemma serialize_plain (s : jsstring) : forallb isPlain s = true -> serialize s = s.
Proof.
  intros H. rewrite <- (toUSV_plain s H) at 1. apply urlencoded_plain, H.
Qed.

Lemma digitsFuel_digits (fuel : nat) (n : Z) (acc : jsstring) :
  forallb isDigit acc = true -> forallb isDigit (digitsFuel fuel n acc) = true.
Proof.
  revert n acc. induction fuel as [|f IH]; intros n acc H; cbn [digitsFuel].
  - cbn [forallb]. rewrite H, andb_true_r.
    pose proof (Z.mod_pos_bound n 10 ltac:(lia)). zcases.
  - assert (G : forallb isDigit ((48 + n mod 10) :: acc) = true).
    { cbn [forallb]. rewrite H, andb_true_r.
      pose proof (Z.mod_pos_bound n 10 ltac:(lia)). zcases. }
    destruct (n <? 10); [exact G|]. apply IH, G.
Qed.


(** The pairs [buildPollinationsUrl] puts in its [URLSearchParams]. *)
Lemma searchParams_pairs (p : Params) :
  searchParams p
  = [ (lit "width", String_ (p_width p)); (lit "height", String_ (p_height p));
      (lit "seed", String_ (p_seed p)); (lit "nologo", lit "true") ]
    ++ (match p_model p with Some (c :: m) => [(lit "model", toUSV (c :: m))] | _ => [] end)
    ++ (match p_enhance p with Some true => [(lit "enhance", lit "true")] | _ => [] end).
Proof.
  unfold searchParams, newURLSearchParams, set. cbn [map fst snd].
  rewrite !(toUSV_plain (String_ _)) by apply String_plain.
  destruct (p_model p) as [[|c m]|]; destruct (p_enhance p) as [[|]|]; reflexivity.
Qed.

Lemma toString_searchParams (p : Params) :
  toString (searchParams p)
  = lit "width=" ++ String_ (p_width p) ++ lit "&height=" ++ String_ (p_height p)
    ++ lit "&seed=" ++ String_ (p_seed p) ++ lit "&nologo=true"
    ++ (match p_model p with Some (c :: m) => lit "&model=" ++ urlencoded (c :: m) | _ => [] end)
    ++ (match p_enhance p with Some true => lit "&enhance=true" | _ => [] end).
Proof.
  rewrite searchParams_pairs.
  destruct (p_model p) as [[|c m]|]; destruct (p_enhance p) as [[|]|];
    cbn [toString app]; rewrite !(serialize_plain (String_ _)) by apply String_plain;
    rewrite ?app_nil_r; reflexivity.
Qed.








(** *** The prompt segment *)

Lemma hexDigit_value (x : Z) : 0 <= x < 16 -> hexValue (hexDigit x) = Some x.
Proof.
  intros H. unfold hexValue, hexDigit. destruct (Z.ltb_spec x 10).
  - replace (isDigit (48 + x)) with true by (symmetry; zcases). f_equal. lia.
  - replace (isDigit (55 + x)) with false by (symmetry; zcases).
    replace (between 65 70 (55 + x)) with true by (symmetry; zcases). f_equal. lia.
Qed.

Lemma hexDigit_safe (x : Z) : 0 <= x < 16 -> isDelimiter (hexDigit x) = false.
Proof. intros H. unfold isDelimiter, hexDigit. destruct (Z.ltb_spec x 10); zcases. Qed.

Lemma unreserved_ascii (c : Z) :
  isUnreserved c = true ->
  33 <= c <= 126 /\ c <> 35 /\ c <> 37 /\ c <> 38 /\ c <> 47 /\ c <> 61 /\ c <> 63.
Proof.
  unfold_classes.
  rewrite !orb_true_iff, !andb_true_iff, !Z.leb_le, !Z.eqb_eq. lia.
Qed.

Lemma utf8_octets (cp : Z) : 0 <= cp < 1114112 -> Forall isOctet (utf8 cp).
Proof.
  intros H. unfold utf8, isOctet.
  destruct (Z.ltb_spec cp 128); [repeat constructor; lia|].
  destruct (Z.ltb_spec cp 2048); [repeat constructor; Z.div_mod_to_equations; lia|].
  destruct (Z.ltb_spec cp 65536); repeat constructor; Z.div_mod_to_equations; lia.
Qed.

Lemma percentDecode_byte (b : byte) (rest : jsstring) :
  isOctet b ->
  percentDecode (percentByte b ++ rest)
  = match percentDecode rest with Some t => Some (b :: t) | None => None end.
Proof.
  intros H. unfold isOctet in H. unfold percentByte. cbn [app percentDecode].
  replace (PERCENT =? PERCENT) with true by reflexivity.
  rewrite !hexDigit_value by (Z.div_mod_to_equations; lia).
  destruct (percentDecode rest); [|reflexivity].
  do 2 f_equal. Z.div_mod_to_equations; lia.
Qed.

Lemma percentDecode_bytes (bs : list byte) (rest : jsstring) :
  Forall isOctet bs ->
  percentDecode (flat_map percentByte bs ++ rest)
  = match percentDecode rest with Some t => Some (bs ++ t) | None => None end.
Proof.
  induction 1 as [|b bs Hb Hbs IH]; cbn [flat_map app].
  - destruct (percentDecode rest); reflexivity.
  - rewrite <- app_assoc, percentDecode_byte, IH by assumption.
    destruct (percentDecode rest); reflexivity.
Qed.

Lemma percentDecode_codePoint (cp : Z) (rest : jsstring) :
  0 <= cp < 1114112 ->
  percentDecode (encodeCodePoint cp ++ rest)
  = match percentDecode rest with Some t => Some (utf8 cp ++ t) | None => None end.
Proof.
  intros H. unfold encodeCodePoint. destruct (isUnreserved cp) eqn:E.
  - cbn [app percentDecode]. apply unreserved_ascii in E.
    replace (cp =? PERCENT) with false by (symmetry; apply Z.eqb_neq; unfold PERCENT; lia).
    replace (utf8 cp) with [cp] by (unfold utf8; destruct (Z.ltb_spec cp 128); [reflexivity|lia]).
    reflexivity.
  - apply percentDecode_bytes, utf8_octets, H.
Qed.

Lemma percentByte_safe (b : byte) (c : codeunit) :
  isOctet b -> In c (percentByte b) -> isDelimiter c = false.
Proof.
  unfold isOctet, percentByte. intros H [<-|[<-|[<-|[]]]]; [reflexivity| |];
    apply hexDigit_safe; Z.div_mod_to_equations; lia.
Qed.

Lemma encodeCodePoint_safe (cp : Z) (c : codeunit) :
  0 <= cp < 1114112 -> In c (encodeCodePoint cp) -> isDelimiter c = false.
Proof.
  intros H. unfold encodeCodePoint. destruct (isUnreserved cp) eqn:E.
  - intros [<-|[]]. apply unreserved_ascii in E. unfold isDelimiter, memZ, existsb.
    repeat match goal with
           | |- context [cp =? ?k] =>
               replace (cp =? k) with false by (symmetry; apply Z.eqb_neq; lia)
           end.
    reflexivity.
  - rewrite in_flat_map. intros [b [Hb Hc]].
    pose proof (utf8_octets cp H) as Ho. rewrite Forall_forall in Ho.
    apply (percentByte_safe b c (Ho b Hb) Hc).
Qed.

(** What [encodeURIComponent] returns holds no delimiter and decodes, in one
    step, to the UTF-8 octets of the code points it was given. *)
Lemma encodeScalars_sound (l : list scalar) (seg : jsstring) :
  Forall inUnicode l -> encodeScalars l = Return seg ->
  (forall c, In c seg -> isDelimiter c = false)
  /\ percentDecode seg
     = Some (flat_map utf8
               (map (fun x => match x with CodePoint cp => cp | Unpaired _ => 65533 end) l)).
Proof.
  intros Hl. revert seg. induction Hl as [|x l Hx Hl IH]; intros seg; cbn [encodeScalars].
  - intros E. injection E as <-. split; [intros c []|reflexivity].
  - destruct x as [cp|cu]; [|discriminate].
    destruct (encodeScalars l) as [e|]; [|discriminate].
    intros E. injection E as <-. destruct (IH e eq_refl) as [IH1 IH2]. split.
    + intros c Hc. apply in_app_iff in Hc. destruct Hc as [Hc|Hc].
      * apply (encodeCodePoint_safe cp c Hx Hc).
      * apply IH1, Hc.
    + rewrite percentDecode_codePoint by exact Hx. rewrite IH2. reflexivity.
Qed.

(** C8: in the address [buildPollinationsUrl] returns, the path segment after
    [/prompt/] is [encodeURIComponent] of the raw prompt, applied once: it
    decodes in a single step to the UTF-8 octets of the prompt; it holds none
    of [?], [&], [=], [#], [/], whatever the prompt, so the first [?] of the
    address is the one that starts the query built from width, height, seed,
    nologo, model and enhance. *)
Theorem buildPollinationsUrl_segment (p : Params) (addr : jsstring) :
  isString (p_prompt p) = true ->
  buildPollinationsUrl p = Return addr ->
  exists seg,
    encodeURIComponent (p_prompt p) = Return seg
    /\ addr = lit "https://image.pollinations.ai/prompt/" ++ seg ++ lit "?"
              ++ toString (searchParams p)
    /\ (forall c, In c seg -> isDelimiter c = false)
    /\ isWellFormed (p_prompt p) = true
    /\ percentDecode seg = Some (flat_map utf8 (toUSV (p_prompt p))).
Proof.
  intros Hs Hb. unfold buildPollinationsUrl in Hb.
  destruct (encodeURIComponent (p_prompt p)) as [seg|] eqn:E; [|discriminate].
  injection Hb as <-. exists seg. split; [reflexivity|]. split; [reflexivity|].
  destruct (encodeScalars_sound _ seg (codePoints_range _ Hs) E) as [H1 H2].
  split; [exact H1|]. split; [exact (encodeScalars_wellFormed _ _ E)|exact H2].
Qed.

Lemma buildPollinationsUrl_segment_witness :
  exists seg,
    buildPollinationsUrl punctuatedParams
    = Return (lit "https://image.pollinations.ai/prompt/" ++ seg
              ++ lit "?width=512&height=512&seed=7&nologo=true&model=flux&enhance=true")
    /\ seg = lit "a%20cat%20%26%20a%20dog%3F%2050%25%20'off'%20%3D%20%231%2F2"
    /\ (forall c, In c seg -> isDelimiter c = false).
Proof.
  destruct (buildPollinationsUrl_segment punctuatedParams
              (lit "https://image.pollinations.ai/prompt/a%20cat%20%26%20a%20dog%3F%2050%25%20'off'%20%3D%20%231%2F2?width=512&height=512&seed=7&nologo=true&model=flux&enhance=true")
              eq_refl eq_refl)
    as (seg & H1 & H2 & H3 & _).
  exists seg. vm_compute in H1. injection H1 as <-.
  split; [reflexivity|]. split; [reflexivity|exact H3].
Defined.

(** ** Generation session *)

Lemma surrogate_not_space (c : codeunit) :
  isHighSurrogate c || isLowSurrogate c = true -> isWhiteSpace c = false.
Proof.
  unfold_classes.
  rewrite !orb_true_iff, !andb_true_iff, !Z.leb_le.
  rewrite !orb_false_iff, !andb_false_iff, !Z.leb_gt, !Z.eqb_neq. lia.
Qed.

Lemma codePoints_app (a b : jsstring) :
  isWellFormed a = true -> codePoints (a ++ b) = codePoints a ++ codePoints b.
Proof.
  unfold isWellFormed.
  induction a as [|c r IH1 IH2] using jsstring_pair_ind; [reflexivity|].
  cbn [app codePoints]. destruct (isHighSurrogate c).
  - destruct r as [|d r0]; [discriminate|]. cbn [app].
    destruct (isLowSurrogate d); [|discriminate].
    cbn [forallb isCodePoint andb app]. intros H. rewrite (IH2 d r0 eq_refl H). reflexivity.
  - destruct (isLowSurrogate c); [discriminate|].
    cbn [forallb isCodePoint andb app]. intros H. rewrite (IH1 H). reflexivity.
Qed.

Lemma isWellFormed_app (a b : jsstring) :
  isWellFormed a = true -> isWellFormed b = true -> isWellFormed (a ++ b) = true.
Proof.
  intros Ha Hb. unfold isWellFormed. rewrite codePoints_app by exact Ha.
  rewrite forallb_app. apply andb_true_iff. split; assumption.
Qed.

Lemma isWellFormed_dropWhile (s : jsstring) :
  isWellFormed s = true -> isWellFormed (dropWhile isWhiteSpace s) = true.
Proof.
  induction s as [|c r IH]; [reflexivity|]. cbn [dropWhile].
  destruct (isWhiteSpace c) eqn:E; [|exact (fun H => H)].
  unfold isWellFormed at 1. cbn [codePoints].
  destruct (isHighSurrogate c) eqn:Eh.
  { rewrite surrogate_not_space in E by (rewrite Eh; reflexivity). discriminate. }
  destruct (isLowSurrogate c) eqn:El.
  { rewrite surrogate_not_space in E by (rewrite El; apply orb_true_r). discriminate. }
  exact IH.
Qed.

Lemma isWellFormed_dropWhileEnd (s : jsstring) :
  isWellFormed s = true -> isWellFormed (dropWhileEnd isWhiteSpace s) = true.
Proof.
  induction s as [|c r IH1 IH2] using jsstring_pair_ind; [reflexivity|].
  unfold isWellFormed at 1. cbn [codePoints].
  destruct (isHighSurrogate c) eqn:Eh.
  - destruct r as [|d r0]; [discriminate|].
    destruct (isLowSurrogate d) eqn:El; [|discriminate].
    cbn [forallb isCodePoint andb]. intros H. specialize (IH2 d r0 eq_refl H).
    assert (Ed : isWhiteSpace d = false)
      by (apply surrogate_not_space; rewrite El; apply orb_true_r).
    cbn [dropWhileEnd]. rewrite Ed.
    destruct (dropWhileEnd isWhiteSpace r0) as [|x r1];
      unfold isWellFormed; cbn [codePoints]; rewrite Eh, El; [reflexivity|exact IH2].
  - destruct (isLowSurrogate c) eqn:El; [discriminate|].
    cbn [forallb isCodePoint andb]. intros H. specialize (IH1 H).
    cbn [dropWhileEnd]. destruct (dropWhileEnd isWhiteSpace r) as [|x r1].
    + destruct (isWhiteSpace c); [reflexivity|].
      unfold isWellFormed. cbn [codePoints]. rewrite Eh, El. reflexivity.
    + unfold isWellFormed. cbn [codePoints]. rewrite Eh, El. exact IH1.
Qed.

Lemma isWellFormed_trim (s : jsstring) :
  isWellFormed s = true -> isWellFormed (trim s) = true.
Proof.
  intros H. unfold trim, trimEnd, trimStart.
  apply isWellFormed_dropWhileEnd, isWellFormed_dropWhile, H.
Qed.

Lemma isWellFormed_enhancedPrompt (st : StyleOption) (q : Quality) (trimmed : jsstring) :
  isWellFormed trimmed = true -> isWellFormed (enhancedPrompt st q trimmed) = true.
Proof.
  intros H. unfold enhancedPrompt.
  rewrite app_assoc. apply isWellFormed_app; [destruct st; reflexivity|].
  apply isWellFormed_app; [exact H|destruct q; reflexivity].
Qed.

Lemma enhancedPrompt_longer (st : StyleOption) (q : Quality) (trimmed : jsstring) :
  (List.length trimmed < List.length (enhancedPrompt st q trimmed))%nat.
Proof.
  unfold enhancedPrompt. rewrite !length_app.
  assert (0 < List.length (STYLE_PRESETS st))%nat by (destruct st; cbn; lia). lia.
Qed.

Section Batch.

Variables (h : Host) (s : State) (trimmed seg : jsstring) (dim : Dimensions).
Hypothesis Hseg :
  encodeURIComponent (enhancedPrompt (style s) (quality s) trimmed) = Return seg.

Lemma advance_0 (w : World) : advance h w 0 = w.
Proof. unfold advance. destruct w, (crypto h); cbn; rewrite Nat.add_0_r; reflexivity. Qed.

Lemma advance_S (w : World) (n : nat) : advance h (advance h w 1) n = advance h w (S n).
Proof.
  unfold advance. destruct (crypto h); cbn; f_equal; lia.
Qed.

Lemma baseAt_S (w : World) (k : nat) : baseAt h (advance h w 1) k = baseAt h w (S k).
Proof.
  unfold baseAt, advance. destruct (crypto h); cbn; rewrite <- Nat.add_assoc; reflexivity.
Qed.

Lemma makeImage_run (i : nat) (w : World) :
  makeImage s trimmed dim i h w
  = Done (imageAt s trimmed seg dim (baseAt h w 0) i) (advance h w 1).
Proof.
  unfold makeImage, bind, randomOrNow, liftCompletion, buildPollinationsUrl, ret.
  unfold baseAt, advance. cbn [p_prompt]. rewrite Hseg.
  destruct (crypto h); rewrite Nat.add_0_r, Nat.add_1_r; reflexivity.
Qed.

Lemma mapFrom_run (n i : nat) (w : World) :
  mapFrom (makeImage s trimmed dim) i n h w
  = Done (map (fun k => imageAt s trimmed seg dim (baseAt h w k) (i + k)) (seq 0 n))
         (advance h w n).
Proof.
  revert i w. induction n as [|n IH]; intros i w.
  - cbn [mapFrom seq map]. unfold ret. rewrite advance_0. reflexivity.
  - cbn [mapFrom]. unfold bind at 1. rewrite makeImage_run.
    unfold bind at 1. rewrite IH. unfold ret. rewrite advance_S. f_equal.
    cbn [seq map]. rewrite Nat.add_0_r. f_equal.
    rewrite <- seq_shift, map_map. apply map_ext. intros k.
    rewrite baseAt_S, Nat.add_succ_r. reflexivity.
Qed.

End Batch.

Lemma handleGenerate_empty (h : Host) (w : World) :
  trim (prompt (react w)) = [] ->
  handleGenerate h w
  = Done None {| react := rejected (react w); randomCalls := randomCalls w;
                 clockCalls := clockCalls w;
                 effects := effects w ++ [Shown emptyPromptStatus] |}.
Proof.
  intros H. unfold handleGenerate. unfold bind at 1. unfold snapshot. rewrite H.
  reflexivity.
Qed.

Lemma handleGenerate_busy (h : Host) (w : World) :
  trim (prompt (react w)) <> [] -> isGenerating (react w) = true ->
  handleGenerate h w = Done None w.
Proof.
  intros H G. unfold handleGenerate. unfold bind at 1. unfold snapshot.
  destruct (trim (prompt (react w))); [contradiction|]. rewrite G. reflexivity.
Qed.

Lemma handleGenerate_unfold (h : Host) (w : World) :
  trim (prompt (react w)) <> [] -> isGenerating (react w) = false ->
  handleGenerate h w
  = match mapFrom (makeImage (react w) (trim (prompt (react w)))
                     (parseResolution (resolutionToken (resolution (react w)))))
                  0 (count (react w)) h (begun w) with
    | Done next w' => Done (Some next) (addEffect (TimeoutSet 600) w')
    | Raised e w' => Raised e w'
    end.
Proof.
  intros H G. unfold handleGenerate. unfold bind at 1. unfold snapshot.
  destruct (trim (prompt (react w))) as [|c t] eqn:T; [contradiction|]. rewrite G.
  unfold bind at 1. unfold setIsGenerating at 1, modify at 1.
  unfold bind at 1. unfold setImages at 1, modify at 1.
  unfold bind at 1. unfold showStatus at 1.
  unfold bind at 1. unfold setStatus at 1, modify at 1.
  unfold bind at 1. unfold perform at 1. unfold perform at 1.
  unfold bind at 1. cbn [react randomCalls clockCalls effects].
  rewrite <- !app_assoc. cbn [app].
  match goal with |- match ?m with _ => _ end = match ?m' with _ => _ end =>
    change m with m'; destruct m' end; reflexivity.
Qed.

Lemma handleGenerate_run (h : Host) (w : World) (seg : jsstring) :
  trim (prompt (react w)) <> [] -> isGenerating (react w) = false ->
  encodeURIComponent
    (enhancedPrompt (style (react w)) (quality (react w)) (trim (prompt (react w))))
  = Return seg ->
  handleGenerate h w
  = Done (Some (batch h w seg))
         (addEffect (TimeoutSet 600) (advance h (begun w) (count (react w)))).
Proof.
  intros H G E. rewrite handleGenerate_unfold by assumption.
  rewrite (mapFrom_run h (react w) _ seg _ E). reflexivity.
Qed.

(** Building the batch writes no state cell and performs no effect. *)
Lemma makeImage_frame (h : Host) (s : State) (t : jsstring) (d : Dimensions)
    (i : nat) (w : World) :
  react (outcomeWorld (makeImage s t d i h w)) = react w
  /\ effects (outcomeWorld (makeImage s t d i h w)) = effects w.
Proof.
  unfold makeImage, bind, randomOrNow, liftCompletion, ret.
  destruct (crypto h); destruct (buildPollinationsUrl _); split; reflexivity.
Qed.

Lemma bind_run {A B} (m : Action A) (k : A -> Action B) (h : Host) (w : World) :
  bind m k h w
  = match m h w with Done a w' => k a h w' | Raised e w' => Raised e w' end.
Proof. reflexivity. Qed.

Lemma mapFrom_frame (h : Host) (s : State) (t : jsstring) (d : Dimensions)
    (n i : nat) (w : World) :
  react (outcomeWorld (mapFrom (makeImage s t d) i n h w)) = react w
  /\ effects (outcomeWorld (mapFrom (makeImage s t d) i n h w)) = effects w.
Proof.
  revert i w. induction n as [|n IH]; intros i w; [split; reflexivity|].
  cbn [mapFrom]. rewrite bind_run.
  pose proof (makeImage_frame h s t d i w) as [F1 F2].
  destruct (makeImage s t d i h w) as [g w0|e w0]; cbn [outcomeWorld] in *;
    [|split; assumption].
  rewrite bind_run. specialize (IH (S i) w0). destruct IH as [I1 I2].
  destruct (mapFrom (makeImage s t d) (S i) n h w0) as [l w2|e w2];
    unfold ret; cbn [outcomeWorld] in *; split; congruence.
Qed.

(** When the prompt does not encode, [handleGenerate] returns a batch only
    if there is nothing to build. *)
Lemma mapFrom_throw (h : Host) (s : State) (t : jsstring) (d : Dimensions)
    (n i : nat) (w : World) (e : exn) :
  encodeURIComponent (enhancedPrompt (style s) (quality s) t) = Throw e ->
  exists w', mapFrom (makeImage s t d) i (S n) h w = Raised e w'.
Proof.
  intros E. cbn [mapFrom]. unfold bind at 1. unfold makeImage at 1. unfold bind at 1.
  unfold randomOrNow at 1.
  destruct (crypto h) as [rand|]; unfold bind at 1, liftCompletion at 1;
    unfold buildPollinationsUrl; cbn [p_prompt]; rewrite E; eexists; reflexivity.
Qed.

Lemma handleGenerate_inv (h : Host) (w w1 : World) (next : list GeneratedImage) :
  handleGenerate h w = Done (Some next) w1 ->
  trim (prompt (react w)) <> [] /\ isGenerating (react w) = false
  /\ (next = []
      \/ exists seg,
           encodeURIComponent
             (enhancedPrompt (style (react w)) (quality (react w))
                (trim (prompt (react w)))) = Return seg
           /\ next = batch h w seg).
Proof.
  intros H.
  destruct (list_eq_dec Z.eq_dec (trim (prompt (react w))) []) as [T|T].
  { rewrite handleGenerate_empty in H by exact T. discriminate H. }
  destruct (isGenerating (react w)) eqn:G.
  { rewrite handleGenerate_busy in H by assumption. discriminate H. }
  split; [exact T|]. split; [reflexivity|].
  destruct (encodeURIComponent
              (enhancedPrompt (style (react w)) (quality (react w))
                 (trim (prompt (react w))))) as [seg|e] eqn:E.
  - right. exists seg. split; [reflexivity|].
    rewrite (handleGenerate_run h w seg T G E) in H. injection H as <- _. reflexivity.
  - left. rewrite handleGenerate_unfold in H by assumption.
    destruct (count (react w)) as [|n].
    + cbn [mapFrom] in H. unfold ret in H. injection H as <- _. reflexivity.
    + destruct (mapFrom_throw h (react w) _
                  (parseResolution (resolutionToken (resolution (react w))))
                  n 0%nat (begun w) e E) as [w' Hw'].
      rewrite Hw' in H. discriminate H.
Qed.

Lemma nth_error_map_seq {A} (f : nat -> A) (n i : nat) (a : A) :
  nth_error (map f (seq 0 n)) i = Some a -> (i < n)%nat /\ a = f i.
Proof.
  rewrite nth_error_map, nth_error_seq.
  destruct (Nat.ltb_spec i n) as [L|L]; [|discriminate]. cbn. intros H.
  injection H as <-. split; [assumption|reflexivity].
Qed.

(** *** Rejected and ignored calls *)

(** C3: a call of [handleGenerate] with a prompt that is empty once trimmed
    returns before anything is built: no batch, the images and the
    generating flag as they were (so a session that was not generating is
    still not), the status set to the error message, which is the one
    notification emitted and gets no dismissal timer. *)
Theorem handleGenerate_empty_prompt (h : Host) (w : World) :
  trim (prompt (react w)) = [] ->
  exists w',
    handleGenerate h w = Done None w'
    /\ Failed (react w')
    /\ effects w' = effects w ++ [Shown emptyPromptStatus]
    /\ s_type emptyPromptStatus = error
    /\ images (react w') = images (react w)
    /\ isGenerating (react w') = isGenerating (react w)
    /\ randomCalls w' = randomCalls w /\ clockCalls w' = clockCalls w.
Proof.
  intros H. eexists. split; [apply handleGenerate_empty, H|].
  split; [eexists; reflexivity|]. repeat split.
Qed.

Lemma handleGenerate_empty_prompt_witness :
  exists w',
    handleGenerate (fixedHost 5) (fresh (idle (lit "   ") 4)) = Done None w'
    /\ Failed (react w') /\ images (react w') = [] /\ isGenerating (react w') = false.
Proof.
  destruct (handleGenerate_empty_prompt (fixedHost 5) (fresh (idle (lit "   ") 4)) eq_refl)
    as (w' & H1 & H2 & _ & _ & H3 & H4 & _).
  exists w'. repeat split; assumption.
Defined.

(** C10: a call rejected for its empty prompt leaves the images, the
    generating flag and the viewer as they were; and whatever the call, the
    images change only if it starts generating, from a session that was
    not, and then to the empty list. *)
Theorem handleGenerate_keeps_results (h : Host) (w : World) :
  (trim (prompt (react w)) = [] ->
   images (react (outcomeWorld (handleGenerate h w))) = images (react w)
   /\ isGenerating (react (outcomeWorld (handleGenerate h w))) = isGenerating (react w)
   /\ modalUrl (react (outcomeWorld (handleGenerate h w))) = modalUrl (react w)
   /\ modalPrompt (react (outcomeWorld (handleGenerate h w))) = modalPrompt (react w))
  /\ (images (react (outcomeWorld (handleGenerate h w))) = images (react w)
      \/ (isGenerating (react w) = false
          /\ trim (prompt (react w)) <> []
          /\ isGenerating (react (outcomeWorld (handleGenerate h w))) = true
          /\ images (react (outcomeWorld (handleGenerate h w))) = [])).
Proof.
  destruct (list_eq_dec Z.eq_dec (trim (prompt (react w))) []) as [T|T].
  - rewrite (handleGenerate_empty h w T). split; [intros _; repeat split|left; reflexivity].
  - split; [intros T'; contradiction|].
    destruct (isGenerating (react w)) eqn:G.
    + rewrite (handleGenerate_busy h w T G). left. reflexivity.
    + right. rewrite (handleGenerate_unfold h w T G).
      pose proof (mapFrom_frame h (react w) (trim (prompt (react w)))
                    (parseResolution (resolutionToken (resolution (react w))))
                    (count (react w)) 0%nat (begun w)) as [F _].
      destruct (mapFrom _ _ _ h (begun w)) as [next w'|e w'];
        cbn [outcomeWorld addEffect react] in *; rewrite F; repeat split; assumption.
Qed.

Lemma handleGenerate_keeps_results_witness :
  images (react (outcomeWorld (handleGenerate (fixedHost 5) (fresh viewing)))) = [shownImage]
  /\ modalUrl (react (outcomeWorld (handleGenerate (fixedHost 5) (fresh viewing))))
     = Some (g_url shownImage).
Proof.
  destruct (handleGenerate_keeps_results (fixedHost 5) (fresh viewing)) as [H _].
  destruct (H eq_refl) as (H1 & _ & H3 & _). split; [exact H1|exact H3].
Defined.

(** C4 (as amended): a call of [handleGenerate] made while the session is
    generating, with a prompt that is not empty once trimmed, does nothing:
    the state, the random source and the clock are as they were, no batch is
    built and nothing is emitted. *)
Theorem handleGenerate_reentrant (h : Host) (w : World) :
  isGenerating (react w) = true -> trim (prompt (react w)) <> [] ->
  handleGenerate h w = Done None w.
Proof. intros G T. apply handleGenerate_busy; assumption. Qed.

Lemma handleGenerate_reentrant_witness :
  handleGenerate (fixedHost 5) (fresh (generating (lit "a cat")))
  = Done None (fresh (generating (lit "a cat"))).
Proof.
  apply (handleGenerate_reentrant (fixedHost 5) (fresh (generating (lit "a cat"))) eq_refl).
  vm_compute. discriminate.
Defined.

(** C4 as stated fails: while generating, a call with an empty prompt still
    replaces the status by the error message and emits it. *)
Lemma handleGenerate_reentrant_counterexample :
  ~ (forall (h : Host) (w : World),
       isGenerating (react w) = true ->
       exists w', handleGenerate h w = Done None w'
                  /\ react w' = react w /\ effects w' = effects w).
Proof.
  intros H.
  destruct (H (fixedHost 5) (fresh (generating [])) eq_refl) as (w' & H1 & _ & H3).
  vm_compute in H1. injection H1 as <-. vm_compute in H3. discriminate H3.
Qed.

(** *** A successful batch *)

Lemma handleGenerateResume_run (next : list GeneratedImage) (h : Host) (w : World) :
  exists w',
    handleGenerateResume next h w = Done tt w'
    /\ Succeeded next (react w')
    /\ effects w' = effects w ++ [Shown (successStatus (List.length next)); TimeoutSet 5000].
Proof.
  cbv [handleGenerateResume bind setImages setIsGenerating showStatus setStatus perform
       modify ret].
  eexists. split; [reflexivity|]. split; [repeat split|].
  cbn [effects]. rewrite <- app_assoc. reflexivity.
Qed.

Lemma batch_length (h : Host) (w : World) (seg : jsstring) :
  List.length (batch h w seg) = count (react w).
Proof. unfold batch. rewrite length_map, length_seq. reflexivity. Qed.

Lemma batch_entry (h : Host) (w : World) (seg : jsstring) (g : GeneratedImage) :
  In g (batch h w seg) ->
  exists k, (k < count (react w))%nat
            /\ g = imageAt (react w) (trim (prompt (react w))) seg
                     (parseResolution (resolutionToken (resolution (react w))))
                     (baseAt h w k) k.
Proof.
  unfold batch. rewrite in_map_iff. intros [k [<- Hk]]. apply in_seq in Hk.
  exists k. split; [lia|reflexivity].
Qed.

(** X25: from a session that is not generating, with a prompt that is not
    empty once trimmed and holds no unpaired surrogate, and with count N,
    [handleGenerate] enters the generating state with the results
    cleared and builds N images; each carries the style, resolution and
    quality of the session and, as its prompt, the trimmed text the user
    entered, which is not the enhanced prompt its address is built from;
    after the delay the session shows exactly this batch, is no longer
    generating, and the success message carries its length. *)
Theorem handleGenerate_succeeds (h : Host) (w : World) :
  isGenerating (react w) = false ->
  trim (prompt (react w)) <> [] ->
  isWellFormed (prompt (react w)) = true ->
  exists next w1,
    handleGenerate h w = Done (Some next) w1
    /\ isGenerating (react w1) = true /\ images (react w1) = []
    /\ List.length next = count (react w)
    /\ (forall g, In g next ->
          g_style g = style (react w)
          /\ g_resolution g = resolution (react w)
          /\ g_quality g = quality (react w)
          /\ g_prompt g = trim (prompt (react w))
          /\ g_prompt g <> enhancedPrompt (style (react w)) (quality (react w))
                             (trim (prompt (react w)))
          /\ buildPollinationsUrl
               {| p_prompt := enhancedPrompt (style (react w)) (quality (react w))
                                (trim (prompt (react w)));
                  p_width := g_width g; p_height := g_height g; p_seed := g_seed g;
                  p_model := Some (MODEL_BY_STYLE (style (react w)));
                  p_enhance := Some (enhanceOf (quality (react w))) |}
             = Return (g_url g))
    /\ (forall w2, exists w3,
          handleGenerateResume next h w2 = Done tt w3 /\ Succeeded next (react w3)).
Proof.
  intros G T Hwf.
  destruct (encodeURIComponent_total _
              (isWellFormed_enhancedPrompt (style (react w)) (quality (react w)) _
                 (isWellFormed_trim _ Hwf))) as [seg E].
  exists (batch h w seg). eexists. split; [apply (handleGenerate_run h w seg T G E)|].
  split; [unfold advance; destruct (crypto h); reflexivity|].
  split; [unfold advance; destruct (crypto h); reflexivity|].
  split; [apply batch_length|]. split.
  - intros g Hg. destruct (batch_entry h w seg g Hg) as [k [_ ->]].
    cbn [imageAt g_style g_resolution g_quality g_prompt g_url g_seed g_width g_height].
    repeat (split; [reflexivity|]). split.
    + intros Heq. pose proof (enhancedPrompt_longer (style (react w)) (quality (react w))
                                (trim (prompt (react w)))) as L.
      rewrite <- Heq in L. lia.
    + unfold buildPollinationsUrl. cbn [p_prompt]. rewrite E. reflexivity.
  - intros w2. destruct (handleGenerateResume_run (batch h w seg) h w2) as (w3 & R1 & R2 & _).
    exists w3. split; assumption.
Qed.

Lemma handleGenerate_succeeds_witness :
  exists next w1,
    handleGenerate (fixedHost 5) (fresh (idle (lit "  a cat ") 4)) = Done (Some next) w1
    /\ List.length next = 4%nat
    /\ (forall g, In g next -> g_prompt g = lit "a cat").
Proof.
  destruct (handleGenerate_succeeds (fixedHost 5) (fresh (idle (lit "  a cat ") 4))
              eq_refl ltac:(vm_compute; discriminate) eq_refl)
    as (next & w1 & H1 & _ & _ & H4 & H5 & _).
  exists next, w1. split; [exact H1|]. split; [exact H4|].
  intros g Hg. destruct (H5 g Hg) as (_ & _ & _ & Hp & _). exact Hp.
Defined.

(** C9 fails on the code.  The session is not generating, the prompt is the
    one code unit U+D800 (an unpaired surrogate, not empty once trimmed) and
    the count is 1.  [handleGenerate] sets the generating flag, clears the
    images and shows the info message; then [encodeURIComponent] throws
    [URIError] inside [buildPollinationsUrl], and nothing in the handler
    catches it: no image is built, the lines that show the batch and reset
    the flag are never reached, and the session stays generating with no
    call waiting.  A later click on generate, even with the prompt replaced,
    is ignored, so the session never succeeds. *)
Theorem handleGenerate_locks_up :
  isGenerating (idle [55296] 1) = false
  /\ trim (prompt (idle [55296] 1)) = [55296]
  /\ count (idle [55296] 1) = 1%nat
  /\ handleGenerate (fixedHost 5) (fresh (idle [55296] 1))
     = Raised URIError
         {| react := started (idle [55296] 1); randomCalls := 1; clockCalls := 0;
            effects := [Shown generatingStatus; TimeoutSet 5000] |}
  /\ isGenerating (started (idle [55296] 1)) = true
  /\ images (started (idle [55296] 1)) = []
  /\ exists a a',
       run (fixedHost 5) [SetPrompt [55296]; Generate] mounted = Some a
       /\ waiting a = []
       /\ run (fixedHost 5) [SetPrompt (lit "a cat"); Generate] a = Some a'
       /\ isGenerating (react (world a')) = true
       /\ images (react (world a')) = []
       /\ waiting a' = [].
Proof.
  repeat (split; [vm_compute; reflexivity|]).
  eexists. eexists.
  split; [vm_compute; reflexivity|].
  split; [reflexivity|].
  split; [vm_compute; reflexivity|].
  repeat split.
Qed.

(** *** Seeds *)

(** C2 (as amended): every seed of a batch is a non-negative integer, the
    value drawn for its image plus the index of the image.  With
    [window.crypto] the draw is a 32-bit value, so the seed of image [i] lies
    between 0 and 2^32 - 1 + i; without it the draw is the clock reading,
    and the seed is [Date.now() + i]. *)
Theorem seeds_range (h : Host) (w w1 : World) (next : list GeneratedImage) :
  handleGenerate h w = Done (Some next) w1 ->
  Z.of_nat (count (react w)) <= 2 ^ 32 ->
  (forall k, 0 <= DateNow h k <= maxTime) ->
  forall i g, nth_error next i = Some g ->
    (i < count (react w))%nat
    /\ match crypto h with
       | Some rand =>
           g_seed g = Num (rand (randomCalls w + i)%nat mod 2 ^ 32 + Z.of_nat i)
           /\ 0 <= rand (randomCalls w + i)%nat mod 2 ^ 32 + Z.of_nat i
              <= 2 ^ 32 - 1 + Z.of_nat i
       | None =>
           g_seed g = Num (DateNow h (clockCalls w + i)%nat + Z.of_nat i)
           /\ 0 <= DateNow h (clockCalls w + i)%nat + Z.of_nat i
       end.
Proof.
  intros H Hn Hclock i g Hg.
  destruct (handleGenerate_inv h w w1 next H) as (_ & _ & [->|[seg [_ ->]]]).
  { destruct i; discriminate Hg. }
  unfold batch in Hg. apply nth_error_map_seq in Hg. destruct Hg as [Hi ->].
  split; [exact Hi|]. cbn [imageAt g_seed add]. unfold baseAt.
  destruct (crypto h) as [rand|].
  - pose proof (Z.mod_pos_bound (rand (randomCalls w + i)%nat) (2 ^ 32) ltac:(lia)) as B.
    split; [apply toNumber_safe|]; lia.
  - pose proof (Hclock (clockCalls w + i)%nat) as B. unfold maxTime in B.
    split; [apply toNumber_safe|]; lia.
Qed.

Lemma seeds_range_witness :
  exists next w1 g,
    handleGenerate (fixedHost 4294967295) (fresh (idle (lit "a cat") 2)) = Done (Some next) w1
    /\ nth_error next 1 = Some g
    /\ g_seed g = Num 4294967296.
Proof.
  destruct (handleGenerate (fixedHost 4294967295) (fresh (idle (lit "a cat") 2)))
    as [[next|] w1|e w1] eqn:E;
    pose proof E as E'; vm_compute in E'; try discriminate E'.
  injection E' as Hn _. destruct next as [|g1 [|g2 rest]]; try discriminate Hn.
  exists (g1 :: g2 :: rest), w1, g2. split; [reflexivity|]. split; [reflexivity|].
  pose proof (seeds_range (fixedHost 4294967295) (fresh (idle (lit "a cat") 2)) w1
                (g1 :: g2 :: rest) E
                ltac:(vm_compute; discriminate)
                ltac:(intros k; vm_compute; split; discriminate) 1%nat g2 eq_refl) as R.
  cbv [fixedHost crypto] in R. destruct R as [_ [Hs _]]. exact Hs.
Defined.

(** C2 as stated fails: the draw 2^32 - 1 gives the second image of a batch
    the seed 2^32, which does not fit 32 bits. *)
Lemma seeds_range_counterexample :
  ~ (forall (h : Host) (w w1 : World) (next : list GeneratedImage),
       In (count (react w)) [1; 2; 4]%nat ->
       handleGenerate h w = Done (Some next) w1 ->
       forall g, In g next -> exists z, g_seed g = Num z /\ 0 <= z <= 2 ^ 32 - 1).
Proof.
  intros H.
  destruct (handleGenerate (fixedHost 4294967295) (fresh (idle (lit "a cat") 2)))
    as [[next|] w1|e w1] eqn:E;
    pose proof E as E'; vm_compute in E'; try discriminate E'.
  injection E' as Hn _.
  specialize (H (fixedHost 4294967295) (fresh (idle (lit "a cat") 2)) w1 next
                (or_intror (or_introl eq_refl)) E).
  destruct next as [|g1 [|g2 rest]]; try discriminate Hn.
  injection Hn as _ Hg2 _.
  destruct (H g2 (or_intror (or_introl eq_refl))) as [z [Hz Hr]].
  rewrite <- Hg2 in Hz. cbn [g_seed] in Hz. injection Hz as <-. lia.
Qed.

(** On the fallback path the seeds of a batch are distinct as long as the
    clock does not go back: the index added to each reading separates equal
    readings. *)
Lemma seeds_distinct_fallback (h : Host) (w w1 : World) (next : list GeneratedImage) :
  crypto h = None ->
  (forall a b, (a <= b)%nat -> DateNow h a <= DateNow h b) ->
  (forall k, 0 <= DateNow h k <= maxTime) ->
  Z.of_nat (count (react w)) <= 2 ^ 32 ->
  handleGenerate h w = Done (Some next) w1 ->
  NoDup (map g_seed next).
Proof.
  intros Hc Hmono Hclock Hn H.
  destruct (handleGenerate_inv h w w1 next H) as (_ & _ & [->|[seg [_ ->]]]);
    [constructor|].
  unfold batch. rewrite map_map. cbn [imageAt g_seed add]. unfold baseAt. rewrite Hc.
  apply NoDup_map_NoDup_ForallPairs; [|apply seq_NoDup].
  intros x y Hx Hy. apply in_seq in Hx, Hy.
  pose proof (Hclock (clockCalls w + x)%nat) as Bx.
  pose proof (Hclock (clockCalls w + y)%nat) as By. unfold maxTime in *.
  rewrite !toNumber_safe by lia. intros E. injection E as E.
  destruct (Nat.lt_trichotomy x y) as [L|[L|L]]; [|exact L|].
  - pose proof (Hmono (clockCalls w + x)%nat (clockCalls w + y)%nat ltac:(lia)). lia.
  - pose proof (Hmono (clockCalls w + y)%nat (clockCalls w + x)%nat ltac:(lia)). lia.
Qed.

(** C1 fails on the code: each image takes a draw of its own, so the draws
    5 and 4 give both images of a batch of two the seed 5. *)
Theorem seeds_collide :
  exists next w1,
    handleGenerate collidingHost (fresh (idle (lit "a cat") 2)) = Done (Some next) w1
    /\ map g_seed next = [Num 5; Num 5]
    /\ ~ NoDup (map g_seed next).
Proof.
  destruct (handleGenerate collidingHost (fresh (idle (lit "a cat") 2)))
    as [[next|] w1|e w1] eqn:E; vm_compute in E; try discriminate E.
  injection E as <- _. eexists. eexists.
  split; [reflexivity|]. split; [reflexivity|].
  cbn [map g_seed]. intros N. inversion N as [|x l Hx Hl]. apply Hx. left. reflexivity.
Qed.

(** * Further properties *)

(** ** Trimming and splitting *)

Section Dropping.

Variable p : codeunit -> bool.

Lemma dropWhile_all (s : jsstring) : dropWhile p s = [] <-> forallb p s = true.
Proof.
  induction s as [|c r IH]; simpl; [split; reflexivity|].
  destruct (p c); simpl; [exact IH|]. split; discriminate.
Qed.

Lemma dropWhileEnd_all (s : jsstring) : dropWhileEnd p s = [] <-> forallb p s = true.
Proof.
  induction s as [|c r IH]; simpl; [split; reflexivity|].
  destruct (dropWhileEnd p r) as [|d r'].
  - destruct (p c); simpl.
    + split; [intros _; apply IH; reflexivity|reflexivity].
    + split; discriminate.
  - split; [discriminate|]. intros H. apply andb_true_iff in H.
    destruct H as [_ H]. apply IH in H. discriminate H.
Qed.

Lemma dropWhile_app_all (a s : jsstring) :
  forallb p a = true -> dropWhile p (a ++ s) = dropWhile p s.
Proof.
  induction a as [|c r IH]; simpl; [reflexivity|]. intros H.
  apply andb_true_iff in H. destruct H as [-> H]. apply IH, H.
Qed.

Lemma dropWhileEnd_app_all (s a : jsstring) :
  forallb p a = true -> dropWhileEnd p (s ++ a) = dropWhileEnd p s.
Proof.
  intros H. induction s as [|c r IH]; simpl.
  - apply dropWhileEnd_all, H.
  - rewrite IH. reflexivity.
Qed.

Lemma dropWhile_length (s : jsstring) : (List.length (dropWhile p s) <= List.length s)%nat.
Proof. induction s as [|c r IH]; simpl; [lia|]. destruct (p c); simpl; lia. Qed.

Lemma dropWhileEnd_length (s : jsstring) :
  (List.length (dropWhileEnd p s) <= List.length s)%nat.
Proof.
  induction s as [|c r IH]; simpl; [lia|].
  destruct (dropWhileEnd p r); [destruct (p c)|]; simpl in *; lia.
Qed.

Lemma dropWhile_head (c : codeunit) (r s : jsstring) :
  dropWhile p s = c :: r -> p c = false.
Proof.
  induction s as [|d t IH]; simpl; [discriminate|].
  destruct (p d) eqn:E; [exact IH|]. intros H. injection H as <- _. exact E.
Qed.

Lemma dropWhileEnd_last (s r : jsstring) (c : codeunit) :
  dropWhileEnd p s = r ++ [c] -> p c = false.
Proof.
  revert r. induction s as [|d t IH]; intros r; simpl.
  - destruct r; discriminate.
  - destruct (dropWhileEnd p t) as [|e t'] eqn:E.
    + destruct (p d) eqn:Ed; [destruct r; discriminate|].
      destruct r as [|x [|y r]]; try discriminate. intros H. injection H as <-. exact Ed.
    + destruct r as [|x r]; [discriminate|]. intros H. injection H as _ H.
      apply (IH r H).
Qed.

End Dropping.

Lemma trim_idem (s : jsstring) : trim (trim s) = trim s.
Proof.
  unfold trim, trimStart, trimEnd.
  rewrite (dropWhileEnd_head isWhiteSpace (dropWhile isWhiteSpace s)) by apply dropWhile_idem.
  apply dropWhileEnd_idem.
Qed.

Lemma trim_empty_iff (s : jsstring) : trim s = [] <-> forallb isWhiteSpace s = true.
Proof.
  unfold trim, trimStart, trimEnd. rewrite dropWhileEnd_all. split.
  - intros H. apply dropWhile_all.
    destruct (dropWhile isWhiteSpace s) as [|c r] eqn:E; [reflexivity|].
    apply dropWhile_head in E. simpl in H. rewrite E in H. discriminate H.
  - intros H. apply dropWhile_all in H. rewrite H. reflexivity.
Qed.

Lemma trim_padded (a s b : jsstring) :
  forallb isWhiteSpace a = true -> forallb isWhiteSpace b = true ->
  trim (a ++ s ++ b) = trim s.
Proof.
  intros Ha Hb. unfold trim, trimStart, trimEnd.
  rewrite dropWhile_app_all by exact Ha.
  assert (G : forall t, dropWhileEnd isWhiteSpace (dropWhile isWhiteSpace (t ++ b))
                        = dropWhileEnd isWhiteSpace (dropWhile isWhiteSpace t)).
  { induction t as [|c r IH]; cbn [app dropWhile].
    - apply dropWhile_all in Hb. rewrite Hb. reflexivity.
    - destruct (isWhiteSpace c); [exact IH|].
      apply (dropWhileEnd_app_all isWhiteSpace (c :: r) b Hb). }
  apply G.
Qed.

Lemma split_app (sep : codeunit) (a r : jsstring) :
  forallb (fun c => negb (c =? sep)) a = true ->
  split sep (a ++ sep :: r) = a :: split sep r.
Proof.
  induction a as [|c t IH]; cbn [app split forallb].
  - rewrite Z.eqb_refl. reflexivity.
  - intros H. apply andb_true_iff in H. destruct H as [Hc Ht].
    apply negb_true_iff in Hc. rewrite Hc, IH by exact Ht. reflexivity.
Qed.

Lemma split_none (sep : codeunit) (a : jsstring) :
  forallb (fun c => negb (c =? sep)) a = true -> split sep a = [a].
Proof.
  induction a as [|c t IH]; cbn [split forallb]; [reflexivity|].
  intros H. apply andb_true_iff in H. destruct H as [Hc Ht].
  apply negb_true_iff in Hc. rewrite Hc, IH by exact Ht. reflexivity.
Qed.

(** ** Reading numbers *)

Lemma takeDigits_dropWhileEnd (t : jsstring) :
  takeDigits (dropWhileEnd isWhiteSpace t) = takeDigits t.
Proof.
  induction t as [|c r IH]; [reflexivity|]. cbn [dropWhileEnd].
  destruct (dropWhileEnd isWhiteSpace r) as [|d r'] eqn:E.
  - cbn [takeDigits] in IH. destruct (isWhiteSpace c) eqn:W.
    + cbn [takeDigits]. destruct (isDigit c) eqn:D; [|reflexivity].
      rewrite digit_not_space in W by exact D. discriminate W.
    + cbn [takeDigits]. rewrite <- IH. reflexivity.
  - cbn [takeDigits]. rewrite <- IH. reflexivity.
Qed.

Lemma dropWhileEnd_cons_keep (c : codeunit) (r : jsstring) :
  isWhiteSpace c = false ->
  dropWhileEnd isWhiteSpace (c :: r) = c :: dropWhileEnd isWhiteSpace r.
Proof.
  intros W. cbn [dropWhileEnd]. rewrite W.
  destruct (dropWhileEnd isWhiteSpace r); reflexivity.
Qed.

(** The [trim] of [parseInt(n.trim(), 10)] changes nothing: [parseInt] skips
    leading white space itself and stops at the first code unit that is not
    a digit. *)
Lemma parseInt10_trim (s : jsstring) : parseInt10 (trim s) = parseInt10 s.
Proof.
  unfold parseInt10, trim, trimStart, trimEnd.
  rewrite (dropWhileEnd_head isWhiteSpace (dropWhile isWhiteSpace s)) by apply dropWhile_idem.
  destruct (dropWhile isWhiteSpace s) as [|c r] eqn:E; [reflexivity|].
  pose proof (dropWhile_head isWhiteSpace c r s E) as W.
  rewrite dropWhileEnd_cons_keep by exact W.
  destruct (c =? 45); [rewrite takeDigits_dropWhileEnd; reflexivity|].
  destruct (c =? 43); [rewrite takeDigits_dropWhileEnd; reflexivity|].
  rewrite <- (dropWhileEnd_cons_keep c r W), takeDigits_dropWhileEnd. reflexivity.
Qed.

Lemma takeDigits_app (ds junk : jsstring) :
  forallb isDigit ds = true ->
  match junk with c :: _ => isDigit c = false | [] => True end ->
  takeDigits (ds ++ junk) = ds.
Proof.
  intros H J. induction ds as [|d r IH]; cbn [app takeDigits].
  - destruct junk as [|c t]; [reflexivity|]. cbn [takeDigits]. rewrite J. reflexivity.
  - cbn [forallb] in H. apply andb_true_iff in H. destruct H as [-> H].
    rewrite IH by exact H. reflexivity.
Qed.

(** [parseInt] on white space, a numeral, and anything that does not go on
    with a digit. *)
Lemma parseInt10_padded (ws ds junk : jsstring) :
  forallb isWhiteSpace ws = true -> isNumeral ds = true ->
  match junk with c :: _ => isDigit c = false | [] => True end ->
  parseInt10 (ws ++ ds ++ junk) = toNumber (base10 ds).
Proof.
  intros W N J. unfold parseInt10, trimStart. rewrite dropWhile_app_all by exact W.
  pose proof (numeral_digits ds N) as D.
  destruct ds as [|d r]; [discriminate N|].
  assert (Hd : isDigit d = true) by (cbn [forallb] in D; apply andb_true_iff in D; apply D).
  cbn [app]. rewrite dropWhile_keeps by (apply digit_not_space, Hd).
  replace (d =? 45) with false by (symmetry; revert Hd; clear; intros Hd; zcases).
  replace (d =? 43) with false by (symmetry; revert Hd; clear; intros Hd; zcases).
  change (d :: r ++ junk) with ((d :: r) ++ junk).
  rewrite takeDigits_app by assumption. rewrite digitsValue_base10. reflexivity.
Qed.

Lemma digits_numeral (n : Z) : isNumeral (digits n) = true.
Proof.
  unfold isNumeral. pose proof (digitsFuel_nonempty (Z.to_nat (Z.log2 n)) n []) as N.
  pose proof (digitsFuel_digits (Z.to_nat (Z.log2 n)) n [] eq_refl) as D.
  unfold digits. destruct (digitsFuel _ n []); [contradiction|exact D].
Qed.

Lemma digits_base10 (n : Z) : 0 <= n -> base10 (digits n) = n.
Proof. intros H. rewrite <- digitsValue_base10. apply digits_value, H. Qed.

(** Reading back what [String] printed. *)
Lemma parseInt10_String (z : Z) : parseInt10 (String_ (Num z)) = toNumber z.
Proof.
  unfold String_. destruct (Z.ltb_spec z 0) as [L|L].
  - unfold parseInt10, trimStart.
    rewrite dropWhile_keeps by reflexivity.
    replace (HYPHEN =? 45) with true by reflexivity.
    rewrite takeDigits_all by apply numeral_digits, digits_numeral.
    pose proof (digits_numeral (- z)) as N.
    destruct (digits (- z)) as [|d r] eqn:E; [discriminate N|]. rewrite <- E.
    rewrite digits_value by lia. f_equal. lia.
  - pose proof (parseInt10_padded [] (digits z) [] eq_refl (digits_numeral z) I) as P.
    cbn [app] in P. rewrite app_nil_r in P. rewrite P.
    rewrite digits_base10 by exact L. reflexivity.
Qed.

Lemma String_inj (a b : Z) : String_ (Num a) = String_ (Num b) -> a = b.
Proof.
  intros H. unfold String_ in H.
  assert (Hd : forall n r, digits n <> HYPHEN :: r).
  { intros n r E. pose proof (numeral_digits _ (digits_numeral n)) as D.
    rewrite E in D. discriminate D. }
  destruct (Z.ltb_spec a 0) as [La|La]; destruct (Z.ltb_spec b 0) as [Lb|Lb].
  - injection H as H. apply (f_equal digitsValue) in H.
    rewrite !digits_value in H by lia. lia.
  - symmetry in H. apply Hd in H. contradiction.
  - apply Hd in H. contradiction.
  - apply (f_equal digitsValue) in H. rewrite !digits_value in H by lia. exact H.
Qed.

(** ** Resolution codec, further *)

Lemma parseResolution_two (a b : jsstring) :
  lacks 120 a = true -> lacks 120 b = true ->
  parseResolution (a ++ lit "x" ++ b) = {| width := parseInt10 a; height := parseInt10 b |}.
Proof.
  intros Ha Hb. unfold parseResolution. change (lit "x" ++ b) with (@cons codeunit 120 b).
  rewrite (split_app 120 a b Ha), (split_none 120 b Hb). cbn [map nth].
  rewrite !parseInt10_trim. reflexivity.
Qed.

Lemma lacks_app (sep : codeunit) (a b : jsstring) :
  lacks sep (a ++ b) = lacks sep a && lacks sep b.
Proof. apply forallb_app. Qed.

Lemma space_lacks_x (ws : jsstring) : forallb isWhiteSpace ws = true -> lacks 120 ws = true.
Proof.
  unfold lacks. rewrite !forallb_forall. intros H c Hc. specialize (H c Hc).
  revert H. clear. intros H. zcases.
Qed.

Lemma digits_lack_x (ds : jsstring) : forallb isDigit ds = true -> lacks 120 ds = true.
Proof.
  unfold lacks. rewrite !forallb_forall. intros H c Hc. specialize (H c Hc).
  revert H. clear. intros H. zcases.
Qed.

(** X1: [parseResolution] reads back the token [`${w}x${h}`] of any two
    non-negative integers below 2^53: printing the dimensions and parsing
    the token gives the dimensions. *)
Theorem parseResolution_render (w h : Z) :
  0 <= w < 2 ^ 53 -> 0 <= h < 2 ^ 53 ->
  parseResolution (String_ (Num w) ++ lit "x" ++ String_ (Num h))
  = {| width := Num w; height := Num h |}.
Proof.
  intros Hw Hh. unfold String_.
  destruct (Z.ltb_spec w 0); [lia|]. destruct (Z.ltb_spec h 0); [lia|].
  rewrite parseResolution_token by apply digits_numeral.
  rewrite !digits_base10 by lia. rewrite !toNumber_safe by assumption. reflexivity.
Qed.

Lemma parseResolution_render_witness :
  parseResolution (String_ (Num 1536) ++ lit "x" ++ String_ (Num 1024))
  = {| width := Num 1536; height := Num 1024 |}.
Proof. apply (parseResolution_render 1536 1024); lia. Defined.

(** X2: [parseResolution] looks at the first two pieces around [x] only.
    Without an [x] the height is [undefined]; with one, each side is what
    [parseInt] reads in it (the [trim] adds nothing); whatever follows a
    second [x] is ignored. *)
Theorem parseResolution_pieces (a b : jsstring) :
  lacks 120 a = true -> lacks 120 b = true ->
  parseResolution a = {| width := parseInt10 a; height := Undefined |}
  /\ parseResolution (a ++ lit "x" ++ b)
     = {| width := parseInt10 a; height := parseInt10 b |}
  /\ forall c, parseResolution (a ++ lit "x" ++ b ++ lit "x" ++ c)
               = parseResolution (a ++ lit "x" ++ b).
Proof.
  intros Ha Hb. split; [|split].
  - unfold parseResolution. rewrite (split_none 120 a Ha). cbn [map nth].
    rewrite parseInt10_trim. reflexivity.
  - apply parseResolution_two; assumption.
  - intros c. rewrite (parseResolution_two a b Ha Hb).
    unfold parseResolution. change (lit "x" ++ b ++ lit "x" ++ c)
      with (@cons codeunit 120 (b ++ @cons codeunit 120 c)).
    rewrite (split_app 120 a _ Ha), (split_app 120 b c Hb). cbn [map nth].
    rewrite !parseInt10_trim. reflexivity.
Qed.

Lemma parseResolution_pieces_witness :
  parseResolution (lit "512") = {| width := Num 512; height := Undefined |}
  /\ parseResolution (lit "512x768x1024") = {| width := Num 512; height := Num 768 |}.
Proof.
  destruct (parseResolution_pieces (lit "512") (lit "768") eq_refl eq_refl) as (H1 & H2 & H3).
  split; [exact H1|]. exact (eq_trans (H3 (lit "1024")) H2).
Defined.

(** X3: [parseResolution] is lenient on each side of the [x]: white space
    before the numeral and anything after it that does not start with a
    digit are skipped, and the side counts as its numeral. *)
Theorem parseResolution_lenient (ws1 dw j1 ws2 dh j2 : jsstring) :
  forallb isWhiteSpace ws1 = true -> forallb isWhiteSpace ws2 = true ->
  isNumeral dw = true -> isNumeral dh = true ->
  endsNumeral j1 -> endsNumeral j2 -> lacks 120 j1 = true -> lacks 120 j2 = true ->
  parseResolution ((ws1 ++ dw ++ j1) ++ lit "x" ++ (ws2 ++ dh ++ j2))
  = {| width := toNumber (base10 dw); height := toNumber (base10 dh) |}.
Proof.
  intros W1 W2 Nw Nh J1 J2 L1 L2.
  rewrite parseResolution_two.
  - rewrite !parseInt10_padded by assumption. reflexivity.
  - rewrite !lacks_app, L1, (space_lacks_x ws1 W1),
      (digits_lack_x dw (numeral_digits dw Nw)). reflexivity.
  - rewrite !lacks_app, L2, (space_lacks_x ws2 W2),
      (digits_lack_x dh (numeral_digits dh Nh)). reflexivity.
Qed.

Lemma parseResolution_lenient_witness :
  parseResolution (lit " 512 wide x 768 high") = {| width := Num 512; height := Num 768 |}.
Proof.
  apply (parseResolution_lenient (lit " ") (lit "512") (lit " wide ") (lit " ") (lit "768")
           (lit " high")); reflexivity.
Defined.

(** X4: every [Resolution] option parses to two positive integers, its
    token is their rendering around [x], and [aspectStyle] gives the
    thumbnail the ratio of the same two integers. *)
Theorem aspectStyle_resolution (r : Resolution) :
  exists w h,
    0 < w /\ 0 < h
    /\ parseResolution (resolutionToken r) = {| width := Num w; height := Num h |}
    /\ resolutionToken r = String_ (Num w) ++ lit "x" ++ String_ (Num h)
    /\ aspectStyle r = String_ (Num w) ++ lit " / " ++ String_ (Num h).
Proof.
  destruct r;
    [exists 512, 512 | exists 768, 768 | exists 1024, 1024 | exists 1536, 1024];
    vm_compute; repeat split.
Qed.

(** ** Filename sanitizer and download names *)

Lemma filter_replaceRuns (b : bool) (x : jsstring) :
  filter isAlnum (replaceRuns b x) = filter isAlnum x.
Proof.
  revert b. induction x as [|c r IH]; intros b; cbn [replaceRuns filter]; [reflexivity|].
  destruct (isAlnum c) eqn:E.
  - cbn [filter]. rewrite E, IH. reflexivity.
  - destruct b; [apply IH|]. cbn [filter].
    replace (isAlnum HYPHEN) with false by reflexivity. apply IH.
Qed.

Lemma filter_dropWhile_hyphen (s : jsstring) :
  filter isAlnum (dropWhile isHyphen s) = filter isAlnum s.
Proof.
  induction s as [|c r IH]; cbn [dropWhile filter]; [reflexivity|].
  destruct (isHyphen c) eqn:E; [|reflexivity].
  rewrite (hyphen_not_alnum c E). exact IH.
Qed.

Lemma filter_dropWhileEnd_hyphen (s : jsstring) :
  filter isAlnum (dropWhileEnd isHyphen s) = filter isAlnum s.
Proof.
  induction s as [|c r IH]; cbn [dropWhileEnd filter]; [reflexivity|].
  destruct (dropWhileEnd isHyphen r) as [|d r'] eqn:E.
  - cbn [filter] in IH. destruct (isHyphen c) eqn:Ec.
    + rewrite (hyphen_not_alnum c Ec). exact IH.
    + cbn [filter]. rewrite <- IH. reflexivity.
  - rewrite <- IH. reflexivity.
Qed.

Lemma filter_toLowerCase (s : jsstring) :
  filter isAlnum (toLowerCase s) = toLowerCase (filter isAlnum s).
Proof.
  unfold toLowerCase. induction s as [|c r IH]; cbn [map filter]; [reflexivity|].
  rewrite isAlnum_lowerUnit. destruct (isAlnum c); cbn [map]; rewrite IH; reflexivity.
Qed.

Lemma sanitizeFilename_filter (x : jsstring) :
  filter isAlnum (sanitizeFilename x) = map lowerUnit (filter isAlnum x).
Proof.
  unfold sanitizeFilename, stripHyphens.
  rewrite filter_toLowerCase, filter_dropWhileEnd_hyphen, filter_dropWhile_hyphen,
    filter_replaceRuns. reflexivity.
Qed.

Lemma tidy_lower (b : bool) (s : jsstring) : tidy b (toLowerCase s) = tidy b s.
Proof.
  revert b. induction s as [|c r IH]; intros b; cbn [toLowerCase map tidy]; [reflexivity|].
  rewrite isAlnum_lowerUnit, isHyphen_lowerUnit. fold (toLowerCase r). rewrite !IH.
  reflexivity.
Qed.

Lemma sanitizeFilename_tidy (x : jsstring) : tidy true (sanitizeFilename x) = true.
Proof. unfold sanitizeFilename. rewrite tidy_lower. apply tidy_strip_replace. Qed.

Lemma sanitizeFilename_end (x : jsstring) :
  dropWhileEnd isHyphen (sanitizeFilename x) = sanitizeFilename x.
Proof.
  unfold sanitizeFilename. rewrite dropWhileEnd_lower. f_equal.
  unfold stripHyphens. apply dropWhileEnd_idem.
Qed.

Lemma tidy_no_double (b : bool) (a r : jsstring) :
  tidy b (a ++ HYPHEN :: HYPHEN :: r) = false.
Proof.
  revert b. induction a as [|c t IH]; intros b; cbn [app tidy].
  - replace (isAlnum HYPHEN) with false by reflexivity.
    replace (isHyphen HYPHEN) with true by reflexivity.
    cbn [negb andb]. rewrite andb_false_r. reflexivity.
  - destruct (isAlnum c); [apply IH|]. rewrite IH. apply andb_false_r.
Qed.

Lemma sanitizeFilename_length (x : jsstring) :
  (List.length (sanitizeFilename x) <= List.length x)%nat.
Proof.
  unfold sanitizeFilename, toLowerCase, stripHyphens. rewrite length_map.
  pose proof (dropWhileEnd_length isHyphen (dropWhile isHyphen (replaceRuns false x))).
  pose proof (dropWhile_length isHyphen (replaceRuns false x)).
  assert (G : forall b s, (List.length (replaceRuns b s) <= List.length s)%nat).
  { intros b s. revert b. induction s as [|c r IH]; intros b; cbn [replaceRuns List.length];
      [lia|].
    destruct (isAlnum c); [specialize (IH false); cbn [List.length]; lia|].
    destruct b; [specialize (IH true); lia|specialize (IH true); cbn [List.length]; lia]. }
  specialize (G false x). lia.
Qed.

Lemma sanitizeFilename_empty_iff (x : jsstring) :
  sanitizeFilename x = [] <-> forallb (fun c => negb (isAlnum c)) x = true.
Proof.
  assert (F : forall s, filter isAlnum s = [] <-> forallb (fun c => negb (isAlnum c)) s = true).
  { induction s as [|c r IH]; cbn [filter forallb]; [split; reflexivity|].
    destruct (isAlnum c); cbn [negb andb]; [split; discriminate|exact IH]. }
  split.
  - intros H. apply F. pose proof (sanitizeFilename_filter x) as E. rewrite H in E.
    cbn [filter] in E. symmetry in E. apply map_eq_nil in E. exact E.
  - intros H. apply F in H. pose proof (sanitizeFilename_filter x) as E.
    rewrite H in E. cbn [map] in E. pose proof (sanitizeFilename_tidy x) as T.
    destruct (sanitizeFilename x) as [|c r]; [reflexivity|]. cbn [tidy filter] in *.
    destruct (isAlnum c); [discriminate E|]. rewrite andb_false_r in T. discriminate T.
Qed.

(** X5: [sanitizeFilename] keeps the ASCII letters and digits of its input,
    all of them, in order and lower-cased, and nothing else but hyphens; its
    result is empty exactly when the input holds no ASCII letter or digit. *)
Theorem sanitizeFilename_letters (x : jsstring) :
  filter isAlnum (sanitizeFilename x) = map lowerUnit (filter isAlnum x)
  /\ (forall c, In c (sanitizeFilename x) -> isAlnum c = false -> c = HYPHEN)
  /\ (sanitizeFilename x = [] <-> forallb (fun c => negb (isAlnum c)) x = true).
Proof.
  split; [apply sanitizeFilename_filter|]. split; [|apply sanitizeFilename_empty_iff].
  intros c Hc Ha. pose proof (sanitizeFilename_chars x c Hc) as H.
  unfold isAlnum in Ha. apply orb_false_iff in Ha. destruct Ha as [Ha Hl].
  apply orb_false_iff in Ha. destruct Ha as [Hd _]. rewrite Hl, Hd in H.
  cbn [orb] in H. apply Z.eqb_eq in H. exact H.
Qed.

Lemma sanitizeFilename_letters_witness :
  sanitizeFilename (lit "?! --- !?") = [].
Proof. apply (proj2 (proj2 (proj2 (sanitizeFilename_letters (lit "?! --- !?"))))). reflexivity. Defined.

(** X6: the result of [sanitizeFilename] is never longer than its input,
    never starts or ends with a hyphen and never holds two hyphens in a
    row. *)
Theorem sanitizeFilename_shape (x : jsstring) :
  (List.length (sanitizeFilename x) <= List.length x)%nat
  /\ (forall r, sanitizeFilename x <> HYPHEN :: r)
  /\ (forall a, sanitizeFilename x <> a ++ [HYPHEN])
  /\ (forall a r, sanitizeFilename x <> a ++ HYPHEN :: HYPHEN :: r).
Proof.
  split; [apply sanitizeFilename_length|]. split; [|split].
  - intros r E. pose proof (sanitizeFilename_tidy x) as T. rewrite E in T. discriminate T.
  - intros a E. pose proof (sanitizeFilename_end x) as H.
    symmetry in H. rewrite E in H at 1. symmetry in H.
    apply dropWhileEnd_last in H. discriminate H.
  - intros a r E. pose proof (sanitizeFilename_tidy x) as T. rewrite E in T.
    rewrite tidy_no_double in T. discriminate T.
Qed.

Lemma literal_nameUnits (x : jsstring) (c : codeunit) :
  In c (sanitizeFilename x) -> isNameUnit c = true.
Proof.
  intros H. apply sanitizeFilename_chars in H. unfold isNameUnit. rewrite H. reflexivity.
Qed.

(** X7: the file name [download] asks for, for any image, is
    [ai-generated-<stem>-gemvie.jpg] where the stem comes from the first 30
    code units of the prompt: it is at most 30 long, the whole name at most
    54, and holds only lower-case ASCII letters, digits, hyphens and the dot
    of the extension; the stem is empty when those 30 code units hold no
    ASCII letter or digit. *)
Theorem imageDownloadName_safe (g : GeneratedImage) :
  exists stem,
    imageDownloadName g = lit "ai-generated-" ++ stem ++ lit "-gemvie.jpg"
    /\ stem = sanitizeFilename (firstn 30 (g_prompt g))
    /\ (List.length stem <= 30)%nat
    /\ (List.length (imageDownloadName g) <= 54)%nat
    /\ (forall c, In c (imageDownloadName g) -> isNameUnit c = true)
    /\ (stem = [] <-> forallb (fun c => negb (isAlnum c)) (firstn 30 (g_prompt g)) = true).
Proof.
  exists (sanitizeFilename (firstn 30 (g_prompt g))).
  pose proof (sanitizeFilename_length (firstn 30 (g_prompt g))) as L.
  pose proof (firstn_le_length 30 (g_prompt g)) as L'.
  split; [reflexivity|]. split; [reflexivity|]. split; [lia|]. split; [|split].
  - unfold imageDownloadName, downloadName, substring0. rewrite !length_app.
    change (List.length (lit "ai-generated-")) with 13%nat.
    change (List.length (lit "-gemvie.jpg")) with 11%nat. lia.
  - unfold imageDownloadName, downloadName, substring0. intros c Hc.
    apply in_app_iff in Hc. destruct Hc as [Hc|Hc].
    + revert c Hc. apply Forall_forall. repeat constructor.
    + apply in_app_iff in Hc. destruct Hc as [Hc|Hc].
      * apply (literal_nameUnits _ c Hc).
      * revert c Hc. apply Forall_forall. repeat constructor.
  - apply sanitizeFilename_empty_iff.
Qed.

(** ** Request builder, further *)

Lemma encodeScalars_throws (l : list scalar) :
  forallb isCodePoint l = false -> encodeScalars l = Throw URIError.
Proof.
  induction l as [|x l IH]; cbn [forallb encodeScalars]; [discriminate|].
  destruct x as [cp|cu]; [|reflexivity]. cbn [isCodePoint andb]. intros H.
  rewrite (IH H). reflexivity.
Qed.

(** X8: [buildPollinationsUrl] throws exactly when the prompt holds an
    unpaired surrogate, and then it is a [URIError]; the dimensions, the
    seed, the model and the enhance flag never make it throw. *)
Theorem buildPollinationsUrl_throws (p : Params) :
  (isWellFormed (p_prompt p) = false <-> buildPollinationsUrl p = Throw URIError)
  /\ (isWellFormed (p_prompt p) = true <-> exists addr, buildPollinationsUrl p = Return addr).
Proof.
  unfold buildPollinationsUrl, encodeURIComponent, isWellFormed.
  destruct (forallb isCodePoint (codePoints (p_prompt p))) eqn:W.
  - destruct (encodeScalars_total _ W) as [seg ->]. split; split; try discriminate.
    + intros _. eexists; reflexivity.
    + reflexivity.
  - rewrite (encodeScalars_throws _ W). split; split; try reflexivity; try discriminate.
    intros [addr H]. discriminate H.
Qed.

Lemma jsstring_eqb_eq (a b : jsstring) : jsstring_eqb a b = true <-> a = b.
Proof.
  unfold jsstring_eqb. destruct (list_eq_dec Z.eq_dec a b); split; try discriminate; auto.
Qed.

Lemma jsstring_eqb_refl (a : jsstring) : jsstring_eqb a a = true.
Proof. apply jsstring_eqb_eq. reflexivity. Qed.

Lemma jsstring_eqb_neq (a b : jsstring) : a <> b -> jsstring_eqb a b = false.
Proof.
  intros H. destruct (jsstring_eqb a b) eqn:E; [|reflexivity].
  apply jsstring_eqb_eq in E. contradiction.
Qed.

(** X10: the query [buildPollinationsUrl] serializes never names a
    parameter twice, and its names are among [width], [height], [seed],
    [nologo], [model] and [enhance], the first four in this order. *)
Theorem searchParams_names (p : Params) :
  NoDup (map fst (searchParams p))
  /\ exists rest,
       map fst (searchParams p)
       = [lit "width"; lit "height"; lit "seed"; lit "nologo"] ++ rest
       /\ incl rest [lit "model"; lit "enhance"].
Proof.
  rewrite searchParams_pairs.
  destruct (p_model p) as [[|c m]|]; destruct (p_enhance p) as [[|]|]; cbn [app map fst];
    (split;
     [ repeat (constructor; [cbn [In]; intros H; repeat destruct H as [H|H];
                             try discriminate H; try contradiction|]); constructor
     | eexists; split; [reflexivity|];
       intros x Hx; cbn [In] in *; repeat destruct Hx as [Hx|Hx]; subst; auto;
       contradiction ]).
Qed.

Lemma forallb_impl (f g : codeunit -> bool) (l : jsstring) :
  (forall c, f c = true -> g c = true) -> forallb f l = true -> forallb g l = true.
Proof.
  intros H. rewrite !forallb_forall. intros F c Hc. apply H, F, Hc.
Qed.

Lemma plain_query (c : codeunit) : isPlain c = true -> isQueryUnit c = true.
Proof.
  unfold isPlain, isQueryUnit, isAddressUnit. unfold_classes.
  rewrite !orb_true_iff, !andb_true_iff, !negb_true_iff, !Z.leb_le, !Z.eqb_eq, !Z.eqb_neq.
  lia.
Qed.

Lemma unreserved_query (c : codeunit) : isUnreserved c = true -> isQueryUnit c = true.
Proof.
  intros H. apply unreserved_ascii in H. unfold isQueryUnit, isAddressUnit, between.
  rewrite !andb_true_iff, !negb_true_iff, !Z.leb_le, !Z.eqb_neq. lia.
Qed.

Lemma hexDigit_query (x : Z) : 0 <= x < 16 -> isQueryUnit (hexDigit x) = true.
Proof.
  intros H. unfold hexDigit, isQueryUnit, isAddressUnit, between.
  rewrite !andb_true_iff, !negb_true_iff, !Z.leb_le, !Z.eqb_neq.
  destruct (Z.ltb_spec x 10); lia.
Qed.

Lemma percentByte_query (b : byte) : isOctet b -> forallb isQueryUnit (percentByte b) = true.
Proof.
  unfold isOctet. intros H. unfold percentByte. cbn [forallb].
  rewrite !hexDigit_query by (Z.div_mod_to_equations; lia). reflexivity.
Qed.

Lemma percentBytes_query (bs : list byte) :
  Forall isOctet bs -> forallb isQueryUnit (flat_map percentByte bs) = true.
Proof.
  induction 1 as [|b bs Hb _ IH]; [reflexivity|]. cbn [flat_map].
  rewrite forallb_app, percentByte_query, IH by exact Hb. reflexivity.
Qed.

Lemma encodeScalars_query (l : list scalar) (seg : jsstring) :
  Forall inUnicode l -> encodeScalars l = Return seg -> forallb isQueryUnit seg = true.
Proof.
  intros Hl. revert seg. induction Hl as [|x l Hx Hl IH]; intros seg; cbn [encodeScalars].
  - intros E. injection E as <-. reflexivity.
  - destruct x as [cp|cu]; [|discriminate].
    destruct (encodeScalars l) as [e|]; [|discriminate].
    intros E. injection E as <-. rewrite forallb_app, (IH e eq_refl), andb_true_r.
    unfold encodeCodePoint. destruct (isUnreserved cp) eqn:U.
    + cbn [forallb]. rewrite (unreserved_query cp U). reflexivity.
    + apply percentBytes_query, utf8_octets, Hx.
Qed.

Lemma urlencoded_query (s : jsstring) :
  isString s = true -> forallb isQueryUnit (urlencoded s) = true.
Proof.
  intros H. apply codePoints_range in H. unfold urlencoded, serialize, toUSV.
  induction H as [|x l Hx _ IH]; [reflexivity|]. cbn [map flat_map].
  rewrite flat_map_app, forallb_app, IH, andb_true_r.
  assert (O : Forall isOctet (utf8 match x with CodePoint cp => cp | Unpaired _ => 65533 end)).
  { apply utf8_octets. destruct x; [exact Hx|lia]. }
  induction O as [|b bs Hb _ IHb]; [reflexivity|]. cbn [flat_map].
  rewrite forallb_app, IHb, andb_true_r. unfold urlencodedByte.
  destruct (b =? 32); [reflexivity|].
  destruct (isAlnum b || memZ b [42; 45; 46; 95]) eqn:P.
  - cbn [forallb]. rewrite (plain_query b P). reflexivity.
  - apply percentByte_query, Hb.
Qed.

Lemma query_count (l : jsstring) :
  forallb isQueryUnit l = true -> count_occ Z.eq_dec l 63 = 0%nat.
Proof.
  intros H. apply count_occ_not_In. intros Hin.
  rewrite forallb_forall in H. specialize (H 63 Hin). discriminate H.
Qed.

Lemma query_address (l : jsstring) :
  forallb isQueryUnit l = true -> forallb isAddressUnit l = true.
Proof.
  apply forallb_impl. intros c H. unfold isQueryUnit in H.
  apply andb_true_iff in H. apply H.
Qed.

Lemma toString_query (p : Params) :
  (forall m, p_model p = Some m -> isString m = true) ->
  forallb isQueryUnit (toString (searchParams p)) = true.
Proof.
  intros Hm. rewrite toString_searchParams.
  assert (S : forall x, forallb isQueryUnit (String_ x) = true).
  { intros x. apply (forallb_impl isPlain); [apply plain_query|apply String_plain]. }
  rewrite !forallb_app, !S.
  replace (forallb isQueryUnit (lit "width=")) with true by reflexivity.
  replace (forallb isQueryUnit (lit "&height=")) with true by reflexivity.
  replace (forallb isQueryUnit (lit "&seed=")) with true by reflexivity.
  replace (forallb isQueryUnit (lit "&nologo=true")) with true by reflexivity.
  cbn [andb]. apply andb_true_iff. split.
  - destruct (p_model p) as [[|c m]|]; try reflexivity.
    rewrite forallb_app, (urlencoded_query (c :: m) (Hm _ eq_refl)). reflexivity.
  - destruct (p_enhance p) as [[|]|]; reflexivity.
Qed.

(** X11: for width, height and seed among the numbers of [isExact] (the
    integers of magnitude below 2^53, [NaN], the infinities), an address
    [buildPollinationsUrl] returns holds only printable ASCII characters, no
    space and no [#], and exactly one [?], whatever the prompt and the model
    (any JavaScript strings): the query starts at the only [?] and nothing
    cuts it short. *)
Theorem buildPollinationsUrl_ascii (p : Params) (addr : jsstring) :
  isString (p_prompt p) = true ->
  (forall m, p_model p = Some m -> isString m = true) ->
  isExact (p_width p) = true ->
  isExact (p_height p) = true ->
  isExact (p_seed p) = true ->
  buildPollinationsUrl p = Return addr ->
  forallb isAddressUnit addr = true /\ count_occ Z.eq_dec addr 63 = 1%nat.
Proof.
  intros Hs Hm _ _ _ Hb. unfold buildPollinationsUrl in Hb.
  destruct (encodeURIComponent (p_prompt p)) as [seg|] eqn:E; [|discriminate].
  assert (A : addr = ENDPOINT ++ seg ++ lit "?" ++ toString (searchParams p))
    by (injection Hb as <-; reflexivity).
  rewrite A. clear A Hb.
  pose proof (encodeScalars_query _ seg (codePoints_range _ Hs) E) as Q1.
  pose proof (toString_query p Hm) as Q2. split.
  - rewrite !forallb_app, (query_address _ Q1), (query_address _ Q2). reflexivity.
  - pose proof (query_count _ Q1) as C1. pose proof (query_count _ Q2) as C2.
    rewrite !count_occ_app. unfold codeunit in *. rewrite C1, C2. reflexivity.
Qed.

Lemma buildPollinationsUrl_ascii_witness :
  exists addr,
    buildPollinationsUrl punctuatedParams = Return addr
    /\ forallb isAddressUnit addr = true /\ count_occ Z.eq_dec addr 63 = 1%nat.
Proof.
  destruct (buildPollinationsUrl punctuatedParams) as [addr|e] eqn:E;
    [|vm_compute in E; discriminate E].
  exists addr. split; [reflexivity|].
  apply (buildPollinationsUrl_ascii punctuatedParams addr eq_refl);
    [|reflexivity|reflexivity|reflexivity|exact E].
  intros m Hm. injection Hm as <-. reflexivity.
Defined.

Lemma String_signed (z : Z) : isSignedNumeral (String_ (Num z)) = true.
Proof.
  unfold String_. destruct (z <? 0).
  - cbn [isSignedNumeral]. rewrite Z.eqb_refl. apply digits_numeral.
  - pose proof (digits_numeral z) as N. unfold isSignedNumeral.
    destruct (digits z) as [|c r] eqn:E; [discriminate N|].
    replace (c =? HYPHEN) with false; [exact N|].
    symmetry. cbn [isNumeral forallb] in N. apply andb_true_iff in N. destruct N as [N _].
    revert N. clear. intros N. zcases.
Qed.

(** [String] tells all numbers apart. *)
Lemma String_number_inj (x y : number) : String_ x = String_ y -> x = y.
Proof.
  intros H.
  destruct x as [a| |[|]|]; destruct y as [b| |[|]|];
    try reflexivity;
    try (apply String_inj in H; rewrite H; reflexivity);
    try (apply (f_equal isSignedNumeral) in H; rewrite String_signed in H; discriminate H);
    try (vm_compute in H; discriminate H).
Qed.

Lemma toString_seed_inj (p : Params) (s1 s2 : number) :
  toString (searchParams (withSeed p s1)) = toString (searchParams (withSeed p s2)) ->
  s1 = s2.
Proof.
  intros H. rewrite !toString_searchParams in H.
  cbn [withSeed p_width p_height p_seed p_model p_enhance] in H.
  do 5 apply app_inv_head in H.
  rewrite !app_assoc in H. apply app_inv_tail in H. apply app_inv_tail in H.
  apply app_inv_tail in H. apply String_number_inj, H.
Qed.

(** X12: the address tells the seeds apart, for width, height and seeds
    among the numbers of [isExact] (the integers of magnitude below 2^53, the
    two zeros being one number, [NaN], the infinities): two requests that
    differ in their seed only and both get an address get different ones. *)
Theorem buildPollinationsUrl_seed_inj (p : Params) (s1 s2 : number) (addr : jsstring) :
  isExact (p_width p) = true ->
  isExact (p_height p) = true ->
  isExact s1 = true ->
  isExact s2 = true ->
  buildPollinationsUrl (withSeed p s1) = Return addr ->
  buildPollinationsUrl (withSeed p s2) = Return addr ->
  s1 = s2.
Proof.
  unfold buildPollinationsUrl. cbn [withSeed p_prompt].
  destruct (encodeURIComponent (p_prompt p)) as [seg|]; [|discriminate].
  intros _ _ _ _ H1 H2. rewrite <- H2 in H1. clear H2.
  assert (G : forall a b : jsstring, Return a = Return b -> a = b)
    by (intros a b G; injection G as G; exact G).
  apply G in H1. do 3 apply app_inv_head in H1. apply (toString_seed_inj p s1 s2 H1).
Qed.

Lemma buildPollinationsUrl_seed_inj_witness :
  exists addr,
    buildPollinationsUrl (withSeed selftestParams (Num 123)) = Return addr
    /\ Num 123 = Num 123.
Proof.
  destruct (buildPollinationsUrl (withSeed selftestParams (Num 123))) as [addr|e] eqn:E;
    [|vm_compute in E; discriminate E].
  exists addr. split; [reflexivity|].
  apply (buildPollinationsUrl_seed_inj selftestParams (Num 123) (Num 123) addr
           eq_refl eq_refl eq_refl eq_refl E E).
Defined.

(** ** Generation session, further *)

Lemma handleGenerateResume_world (next : list GeneratedImage) (h : Host) (w : World) :
  handleGenerateResume next h w
  = Done tt {| react := published next (react w); randomCalls := randomCalls w;
               clockCalls := clockCalls w;
               effects := effects w ++ [Shown (successStatus (List.length next));
                                        TimeoutSet 5000] |}.
Proof.
  cbv [handleGenerateResume bind setImages setIsGenerating showStatus setStatus perform
       modify ret].
  cbn [react randomCalls clockCalls effects]. rewrite <- app_assoc. reflexivity.
Qed.

(** The three ways a call of [handleGenerate] goes. *)
Lemma handleGenerate_cases (h : Host) (w : World) :
  (trim (prompt (react w)) = []
   /\ handleGenerate h w
      = Done None {| react := rejected (react w); randomCalls := randomCalls w;
                     clockCalls := clockCalls w;
                     effects := effects w ++ [Shown emptyPromptStatus] |})
  \/ (trim (prompt (react w)) <> [] /\ isGenerating (react w) = true
      /\ handleGenerate h w = Done None w)
  \/ (trim (prompt (react w)) <> [] /\ isGenerating (react w) = false
      /\ react (outcomeWorld (handleGenerate h w)) = started (react w)
      /\ (exists tail,
            effects (outcomeWorld (handleGenerate h w))
            = effects w ++ Shown generatingStatus :: TimeoutSet 5000 :: tail
            /\ filter isDismissal tail = [])
      /\ forall w', handleGenerate h w <> Done None w').
Proof.
  destruct (list_eq_dec Z.eq_dec (trim (prompt (react w))) []) as [T|T].
  { left. split; [exact T|apply handleGenerate_empty, T]. }
  right. destruct (isGenerating (react w)) eqn:G.
  { left. split; [exact T|]. split; [reflexivity|apply handleGenerate_busy; assumption]. }
  right. split; [exact T|]. split; [reflexivity|].
  rewrite (handleGenerate_unfold h w T G).
  pose proof (mapFrom_frame h (react w) (trim (prompt (react w)))
                (parseResolution (resolutionToken (resolution (react w))))
                (count (react w)) 0%nat (begun w)) as [F1 F2].
  destruct (mapFrom _ _ _ h (begun w)) as [next w'|e w'];
    cbn [outcomeWorld addEffect react effects] in *.
  - split; [exact F1|]. split; [|intros w0 H; discriminate H].
    exists [TimeoutSet 600]. rewrite F2. cbn [begun effects].
    rewrite <- app_assoc. split; reflexivity.
  - split; [exact F1|]. split; [|intros w0 H; discriminate H].
    exists []. rewrite F2. split; reflexivity.
Qed.

Lemma imageAt_wellBuilt (s : State) (seg : jsstring) (base : Z) (i : nat) :
  trim (prompt s) <> [] ->
  encodeURIComponent (enhancedPrompt (style s) (quality s) (trim (prompt s))) = Return seg ->
  wellBuilt (imageAt s (trim (prompt s)) seg
               (parseResolution (resolutionToken (resolution s))) base i).
Proof.
  intros T E. unfold wellBuilt.
  cbn [imageAt g_prompt g_style g_resolution g_quality g_seed g_width g_height g_url].
  split; [exact T|]. split; [apply trim_idem|]. split.
  - destruct (parseResolution (resolutionToken (resolution s))); reflexivity.
  - unfold buildPollinationsUrl. cbn [p_prompt]. rewrite E. reflexivity.
Qed.

Lemma handleGenerate_isBatch (h : Host) (w w1 : World) (next : list GeneratedImage) :
  handleGenerate h w = Done (Some next) w1 -> isBatch next.
Proof.
  intros H. destruct (handleGenerate_inv h w w1 next H) as (T & _ & [->|[seg [E ->]]]).
  { split; [constructor|intros g1 g2 []]. }
  split.
  - apply Forall_forall. intros g Hg. destruct (batch_entry h w seg g Hg) as [k [_ ->]].
    apply imageAt_wellBuilt; assumption.
  - intros g1 g2 H1 H2.
    destruct (batch_entry h w seg g1 H1) as [k1 [_ ->]].
    destruct (batch_entry h w seg g2 H2) as [k2 [_ ->]].
    repeat split.
Qed.

Lemma dismissals_app (w : World) (l : list Effect) (w' : World) :
  effects w' = effects w ++ l ->
  dismissals w' = (dismissals w + List.length (filter isDismissal l))%nat.
Proof. intros E. unfold dismissals. rewrite E, filter_app, length_app. reflexivity. Qed.

Lemma isBatch_nil : isBatch [].
Proof. split; [constructor|intros g1 g2 []]. Qed.

Lemma sound_mounted : sound mounted.
Proof.
  unfold sound, mounted. cbn [world waiting fired react isGenerating images List.length].
  split; [lia|]. split; [intros H; contradiction|]. split; [discriminate|].
  split; [apply isBatch_nil|]. split; [constructor|lia].
Qed.

Lemma some_inj {A} (x y : A) : Some x = Some y -> x = y.
Proof. intros H. injection H as H. exact H. Qed.

Ltac sound_split :=
  unfold sound; split; [|split; [|split; [|split; [|split]]]].

Lemma sound_step (h : Host) (e : Event) (a a' : App) :
  sound a -> step h e a = Some a' -> sound a'.
Proof.
  intros (L & W & G & B & Bw & F) H. destruct e; cbn [step] in H.
  1-5: apply some_inj in H; subst a'; sound_split;
       cbn [setInputs world waiting fired react isGenerating images];
       first [assumption | exact F].
  - (* Generate *)
    destruct (handleGenerate_cases h (world a))
      as [[T E]|[(T & Gen & E)|(T & Gen & R & (tail & Ef & Ft) & N)]].
    + rewrite E in H. apply some_inj in H; subst a'. sound_split;
        cbn [world waiting fired react rejected isGenerating images]; try assumption.
      rewrite (dismissals_app (world a) [Shown emptyPromptStatus]) by reflexivity. lia.
    + rewrite E in H. apply some_inj in H; subst a'. destruct a as [w ws f].
      sound_split; cbn [world waiting fired] in *; assumption.
    + assert (Wn : waiting a = []).
      { destruct (waiting a) as [|x l]; [reflexivity|].
        rewrite W in Gen by discriminate. discriminate Gen. }
      assert (D : (fired a <= dismissals (outcomeWorld (handleGenerate h (world a))))%nat).
      { rewrite (dismissals_app _ _ _ Ef). lia. }
      destruct (handleGenerate h (world a)) as [[next|] w'|ex w'] eqn:E;
        cbn [outcomeWorld] in *; apply some_inj in H; subst a'.
      * pose proof (handleGenerate_isBatch h (world a) w' next E) as Bn.
        sound_split; cbn [world waiting fired]; rewrite ?R, ?Wn;
          cbn [started isGenerating images app List.length].
        -- lia.
        -- reflexivity.
        -- reflexivity.
        -- apply isBatch_nil.
        -- constructor; [exact Bn|constructor].
        -- exact D.
      * exfalso. apply (N w'). reflexivity.
      * sound_split; cbn [world waiting fired]; rewrite ?R, ?Wn;
          cbn [started isGenerating images app List.length].
        -- lia.
        -- intros C. contradiction.
        -- reflexivity.
        -- apply isBatch_nil.
        -- constructor.
        -- exact D.
  - (* DelayElapsed *)
    destruct (waiting a) as [|next rest] eqn:Wa; [discriminate H|].
    apply some_inj in H; subst a'. rewrite handleGenerateResume_world.
    assert (rest = []) by (destruct rest; [reflexivity|cbn in L; lia]). subst rest.
    inversion Bw as [|x l Bn _]; subst.
    sound_split; cbn [outcomeWorld world waiting fired react published isGenerating images].
    + cbn. lia.
    + intros C. contradiction.
    + discriminate.
    + exact Bn.
    + constructor.
    + rewrite (dismissals_app (world a)
                 [Shown (successStatus (List.length next)); TimeoutSet 5000]) by reflexivity.
      lia.
  - (* StatusTimeout *)
    destruct (Nat.ltb_spec (fired a) (dismissals (world a))) as [Lt|Ge]; [|discriminate H].
    apply some_inj in H; subst a'.
    sound_split;
      cbn [outcomeWorld world waiting fired react isGenerating images setStatus modify];
      try assumption; try (unfold dismissals in *; cbn [effects]; lia).
  - apply some_inj in H; subst a'.
    sound_split;
      cbn [outcomeWorld world waiting fired react isGenerating images openModal setModal
           modify];
      first [assumption | exact F].
  - apply some_inj in H; subst a'.
    sound_split;
      cbn [outcomeWorld world waiting fired react isGenerating images closeModal setModal
           modify];
      first [assumption | exact F].
Qed.

Lemma sound_run (h : Host) (es : list Event) (a a' : App) :
  sound a -> run h es a = Some a' -> sound a'.
Proof.
  revert a. induction es as [|e es IH]; intros a S H; cbn [run] in H.
  - injection H as <-. exact S.
  - destruct (step h e a) as [a1|] eqn:E; [|discriminate H].
    apply (IH a1 (sound_step h e a a1 S E) H).
Qed.

Lemma codePoints_app_gen (a b : jsstring) :
  match b with d :: _ => isLowSurrogate d = false | [] => True end ->
  codePoints (a ++ b) = codePoints a ++ codePoints b.
Proof.
  intros Hb. induction a as [|c r IH1 IH2] using jsstring_pair_ind; [reflexivity|].
  cbn [app codePoints]. destruct (isHighSurrogate c).
  - destruct r as [|d r0]; cbn [app].
    + destruct b as [|d b']; [reflexivity|]. rewrite Hb. reflexivity.
    + destruct (isLowSurrogate d).
      * rewrite (IH2 d r0 eq_refl). reflexivity.
      * change (d :: r0 ++ b) with ((d :: r0) ++ b). rewrite IH1. reflexivity.
  - destruct (isLowSurrogate c); rewrite IH1; reflexivity.
Qed.

Lemma isWellFormed_enhancedPrompt_eq (st : StyleOption) (q : Quality) (t : jsstring) :
  isWellFormed (enhancedPrompt st q t) = isWellFormed t.
Proof.
  unfold enhancedPrompt, isWellFormed.
  rewrite (codePoints_app (STYLE_PRESETS st)) by (destruct st; reflexivity).
  rewrite (codePoints_app (lit ", ")) by reflexivity.
  rewrite (codePoints_app_gen t) by (destruct q; cbn; try exact I; reflexivity).
  rewrite !forallb_app.
  replace (forallb isCodePoint (codePoints (STYLE_PRESETS st))) with true
    by (destruct st; reflexivity).
  replace (forallb isCodePoint (codePoints (lit ", "))) with true by reflexivity.
  cbn [andb].
  destruct q;
    match goal with |- ?b && ?c = ?b => replace c with true by reflexivity end;
    apply andb_true_r.
Qed.

Lemma isWellFormed_dropWhile_eq (s : jsstring) :
  isWellFormed (dropWhile isWhiteSpace s) = isWellFormed s.
Proof.
  induction s as [|c r IH]; [reflexivity|]. cbn [dropWhile].
  destruct (isWhiteSpace c) eqn:E; [|reflexivity].
  rewrite IH. unfold isWellFormed. cbn [codePoints].
  destruct (isHighSurrogate c) eqn:Eh.
  { rewrite surrogate_not_space in E by (rewrite Eh; reflexivity). discriminate. }
  destruct (isLowSurrogate c) eqn:El.
  { rewrite surrogate_not_space in E by (rewrite El; apply orb_true_r). discriminate. }
  reflexivity.
Qed.

Lemma isWellFormed_dropWhileEnd_eq (s : jsstring) :
  isWellFormed (dropWhileEnd isWhiteSpace s) = isWellFormed s.
Proof.
  induction s as [|c r IH1 IH2] using jsstring_pair_ind; [reflexivity|].
  destruct (isHighSurrogate c) eqn:Eh.
  - assert (Wc : isWhiteSpace c = false)
      by (apply surrogate_not_space; rewrite Eh; reflexivity).
    rewrite dropWhileEnd_cons_keep by exact Wc.
    destruct r as [|d r0]; [reflexivity|].
    destruct (isLowSurrogate d) eqn:El.
    + assert (Wd : isWhiteSpace d = false)
        by (apply surrogate_not_space; rewrite El; apply orb_true_r).
      rewrite dropWhileEnd_cons_keep by exact Wd.
      unfold isWellFormed in *. cbn [codePoints]. rewrite Eh, El. cbn [forallb isCodePoint andb].
      apply (IH2 d r0 eq_refl).
    + cbn [dropWhileEnd]. destruct (dropWhileEnd isWhiteSpace r0) as [|x r1];
        [destruct (isWhiteSpace d)|];
        unfold isWellFormed; cbn [codePoints]; rewrite Eh, ?El; reflexivity.
  - destruct (isLowSurrogate c) eqn:El.
    + assert (Wc : isWhiteSpace c = false)
        by (apply surrogate_not_space; rewrite El; apply orb_true_r).
      rewrite dropWhileEnd_cons_keep by exact Wc.
      unfold isWellFormed. cbn [codePoints]. rewrite Eh, El. reflexivity.
    + assert (E : isWellFormed (c :: r) = isWellFormed r)
        by (unfold isWellFormed; cbn [codePoints]; rewrite Eh, El; reflexivity).
      rewrite E, <- IH1. cbn [dropWhileEnd].
      destruct (dropWhileEnd isWhiteSpace r) as [|x r1].
      * destruct (isWhiteSpace c); [reflexivity|].
        unfold isWellFormed. cbn [codePoints]. rewrite Eh, El. reflexivity.
      * unfold isWellFormed. cbn [codePoints]. rewrite Eh, El. reflexivity.
Qed.

Lemma isWellFormed_trim_eq (s : jsstring) : isWellFormed (trim s) = isWellFormed s.
Proof.
  unfold trim, trimEnd, trimStart.
  rewrite isWellFormed_dropWhileEnd_eq. apply isWellFormed_dropWhile_eq.
Qed.

Lemma encode_enhancedPrompt (st : StyleOption) (q : Quality) (s : jsstring) :
  isWellFormed s = false ->
  encodeURIComponent (enhancedPrompt st q (trim s)) = Throw URIError.
Proof.
  intros H. apply encodeScalars_throws.
  change (isWellFormed (enhancedPrompt st q (trim s)) = false).
  rewrite isWellFormed_enhancedPrompt_eq, isWellFormed_trim_eq. exact H.
Qed.

Lemma mapFrom_throw_world (h : Host) (s : State) (t : jsstring) (d : Dimensions)
    (n i : nat) (w : World) (e : exn) :
  encodeURIComponent (enhancedPrompt (style s) (quality s) t) = Throw e ->
  mapFrom (makeImage s t d) i (S n) h w = Raised e (advance h w 1).
Proof.
  intros E. cbn [mapFrom]. unfold bind at 1. unfold makeImage at 1. unfold bind at 1.
  unfold randomOrNow at 1, advance.
  destruct (crypto h) as [rand|]; unfold bind at 1, liftCompletion at 1;
    unfold buildPollinationsUrl; cbn [p_prompt]; rewrite E, Nat.add_1_r; reflexivity.
Qed.

Lemma batch_entries (h : Host) (w : World) (seg : jsstring) (g1 g2 : GeneratedImage) :
  In g1 (batch h w seg) -> In g2 (batch h w seg) ->
  (g_url g1 = g_url g2 -> g_seed g1 = g_seed g2)
  /\ (g_seed g1 = g_seed g2 -> g1 = g2).
Proof.
  intros H1 H2.
  destruct (batch_entry h w seg g1 H1) as [k1 [_ ->]].
  destruct (batch_entry h w seg g2 H2) as [k2 [_ ->]].
  split.
  - cbn [imageAt g_url g_seed]. intros E. do 3 apply app_inv_head in E.
    match type of E with
    | toString (searchParams ?p1) = toString (searchParams ?p2) =>
        change p1 with (withSeed p1 (p_seed p1)) in E;
        change p2 with (withSeed p1 (p_seed p2)) in E
    end.
    apply toString_seed_inj in E. exact E.
  - cbn [imageAt g_seed]. intros E. unfold imageAt. cbv zeta. rewrite E. reflexivity.
Qed.

(** X13: in a batch [handleGenerate] returns, two images have the same
    address exactly when they have the same seed, and then they are the same
    record: the address is the only thing besides the seed that can tell two
    images of a batch apart. *)
Theorem batch_addresses (h : Host) (w w1 : World) (next : list GeneratedImage) :
  handleGenerate h w = Done (Some next) w1 ->
  forall g1 g2, In g1 next -> In g2 next ->
    (g_url g1 = g_url g2 <-> g_seed g1 = g_seed g2)
    /\ (g_seed g1 = g_seed g2 -> g1 = g2).
Proof.
  intros H g1 g2 H1 H2.
  destruct (handleGenerate_inv h w w1 next H) as (_ & _ & [->|[seg [_ ->]]]);
    [destruct H1|].
  destruct (batch_entries h w seg g1 g2 H1 H2) as [U S].
  split; [split; [exact U|]|exact S]. intros E. rewrite (S E). reflexivity.
Qed.

Lemma batch_addresses_witness :
  exists next w1,
    handleGenerate collidingHost (fresh (idle (lit "a cat") 2)) = Done (Some next) w1
    /\ forall g1 g2, In g1 next -> In g2 next -> g_seed g1 = g_seed g2 -> g1 = g2.
Proof.
  destruct (handleGenerate collidingHost (fresh (idle (lit "a cat") 2)))
    as [[next|] w1|e w1] eqn:E;
    try (vm_compute in E; discriminate E).
  exists next, w1. split; [reflexivity|]. intros g1 g2 H1 H2.
  apply (batch_addresses collidingHost (fresh (idle (lit "a cat") 2)) w1 next E g1 g2 H1 H2).
Defined.

Lemma handleGenerate_react (h : Host) (w : World) :
  react (outcomeWorld (handleGenerate h w)) = rejected (react w)
  \/ react (outcomeWorld (handleGenerate h w)) = react w
  \/ react (outcomeWorld (handleGenerate h w)) = started (react w).
Proof.
  destruct (handleGenerate_cases h w) as [[_ E]|[(_ & _ & E)|(_ & _ & R & _)]].
  - left. rewrite E. reflexivity.
  - right. left. rewrite E. reflexivity.
  - right. right. exact R.
Qed.

(** X14: which cells an event can touch.  A call of [handleGenerate], the
    end of its delay and a dismissal timer leave the form (prompt, style,
    resolution, quality, count) and the viewer as they are, whatever way the
    call goes; opening or closing the viewer leaves the form, the session
    (generating flag, status, images), the waiting calls and the effects as
    they are, and the viewer holds what was last opened; a change of the form
    leaves the viewer, the session, the waiting calls and the effects. *)
Theorem step_frames (h : Host) (e : Event) (a a' : App) :
  step h e a = Some a' ->
  match e with
  | Generate | DelayElapsed | StatusTimeout =>
      sameInputs (react (world a)) (react (world a'))
      /\ sameViewer (react (world a)) (react (world a'))
  | OpenModal u p =>
      sameInputs (react (world a)) (react (world a'))
      /\ sameSession (react (world a)) (react (world a'))
      /\ waiting a' = waiting a /\ effects (world a') = effects (world a)
      /\ modalUrl (react (world a')) = Some u /\ modalPrompt (react (world a')) = p
  | CloseModal =>
      sameInputs (react (world a)) (react (world a'))
      /\ sameSession (react (world a)) (react (world a'))
      /\ waiting a' = waiting a /\ effects (world a') = effects (world a)
      /\ modalUrl (react (world a')) = None /\ modalPrompt (react (world a')) = []
  | _ =>
      sameViewer (react (world a)) (react (world a'))
      /\ sameSession (react (world a)) (react (world a'))
      /\ waiting a' = waiting a /\ effects (world a') = effects (world a)
  end.
Proof.
  intros H. destruct e; cbn [step] in H.
  1-5: apply some_inj in H; subst a'; repeat split.
  - assert (R : react (world a') = react (outcomeWorld (handleGenerate h (world a)))).
    { destruct (handleGenerate h (world a)) as [[next|] w'|ex w'];
        apply some_inj in H; subst a'; reflexivity. }
    rewrite R. destruct (handleGenerate_react h (world a)) as [E|[E|E]]; rewrite E;
      repeat split.
  - destruct (waiting a) as [|next rest]; [discriminate H|].
    apply some_inj in H; subst a'. cbn [world]. rewrite handleGenerateResume_world.
    repeat split.
  - destruct (fired a <? dismissals (world a))%nat; [|discriminate H].
    apply some_inj in H; subst a'. repeat split.
  - apply some_inj in H; subst a'. repeat split.
  - apply some_inj in H; subst a'. repeat split.
Qed.

Lemma step_frames_witness :
  exists a',
    step (fixedHost 5) Generate
      {| world := fresh viewing; waiting := []; fired := 0 |} = Some a'
    /\ sameViewer viewing (react (world a')).
Proof.
  destruct (step (fixedHost 5) Generate {| world := fresh viewing; waiting := []; fired := 0 |})
    as [a'|] eqn:E; [|vm_compute in E; discriminate E].
  exists a'. split; [reflexivity|].
  apply (step_frames (fixedHost 5) Generate _ a' E).
Defined.

(** X15: in every state a mounted [App] can reach, at most one call of
    [handleGenerate] waits for its delay; when one waits the session is
    generating; and while the session is generating no image is shown. *)
Theorem one_batch_at_a_time (h : Host) (es : list Event) (a : App) :
  run h es mounted = Some a ->
  (List.length (waiting a) <= 1)%nat
  /\ (waiting a <> [] -> isGenerating (react (world a)) = true)
  /\ (isGenerating (react (world a)) = true -> images (react (world a)) = []).
Proof.
  intros H. destruct (sound_run h es mounted a sound_mounted H) as (L & W & G & _).
  split; [exact L|]. split; [exact W|exact G].
Qed.

Lemma one_batch_at_a_time_witness :
  exists a,
    run (fixedHost 5) [SetPrompt (lit "a cat"); SetCount 2; Generate; Generate; Generate]
      mounted = Some a
    /\ (List.length (waiting a) <= 1)%nat.
Proof.
  destruct (run (fixedHost 5) [SetPrompt (lit "a cat"); SetCount 2; Generate; Generate; Generate]
              mounted) as [a|] eqn:E; [|vm_compute in E; discriminate E].
  exists a. split; [reflexivity|].
  apply (one_batch_at_a_time (fixedHost 5) _ a E).
Defined.

(** X16: in every state a mounted [App] can reach, the images shown are a
    batch: each has a non-empty, trimmed prompt, the dimensions its
    resolution parses to, and the address [buildPollinationsUrl] gives for
    its own enhanced prompt, dimensions, seed, model and enhance flag; and
    they all share prompt, style, resolution and quality. *)
Theorem shown_images_wellBuilt (h : Host) (es : list Event) (a : App) :
  run h es mounted = Some a ->
  Forall wellBuilt (images (react (world a)))
  /\ forall g1 g2, In g1 (images (react (world a))) -> In g2 (images (react (world a))) ->
                   alike g1 g2.
Proof.
  intros H. destruct (sound_run h es mounted a sound_mounted H) as (_ & _ & _ & B & _).
  exact B.
Qed.

Lemma shown_images_wellBuilt_witness :
  exists a,
    run (fixedHost 5) [SetPrompt (lit " a cat "); SetQuality ultra; Generate; DelayElapsed]
      mounted = Some a
    /\ Forall wellBuilt (images (react (world a))).
Proof.
  destruct (run (fixedHost 5)
              [SetPrompt (lit " a cat "); SetQuality ultra; Generate; DelayElapsed] mounted)
    as [a|] eqn:E; [|vm_compute in E; discriminate E].
  exists a. split; [reflexivity|].
  apply (shown_images_wellBuilt (fixedHost 5) _ a E).
Defined.

(** X17: [handleGenerate] throws exactly when the session is not
    generating, the prompt is not empty once trimmed but holds an unpaired
    surrogate, and at least one image is asked for; it is then a [URIError],
    raised after the session was set generating with the results cleared and
    the info message shown, and after one value was drawn: the session is
    left in the generating state with no call waiting. *)
Theorem handleGenerate_throws (h : Host) (w : World) :
  ((exists e w', handleGenerate h w = Raised e w')
   <-> isGenerating (react w) = false /\ trim (prompt (react w)) <> []
       /\ isWellFormed (prompt (react w)) = false /\ count (react w) <> 0%nat)
  /\ forall e w', handleGenerate h w = Raised e w' ->
       e = URIError
       /\ react w' = started (react w)
       /\ effects w' = effects w ++ [Shown generatingStatus; TimeoutSet 5000]
       /\ (randomCalls w' + clockCalls w' = randomCalls w + clockCalls w + 1)%nat.
Proof.
  assert (Main : forall e w', handleGenerate h w = Raised e w' ->
            isGenerating (react w) = false /\ trim (prompt (react w)) <> []
            /\ isWellFormed (prompt (react w)) = false /\ count (react w) <> 0%nat
            /\ e = URIError /\ w' = advance h (begun w) 1).
  { intros e w' H.
    destruct (list_eq_dec Z.eq_dec (trim (prompt (react w))) []) as [T|T].
    { rewrite handleGenerate_empty in H by exact T. discriminate H. }
    destruct (isGenerating (react w)) eqn:G.
    { rewrite handleGenerate_busy in H by assumption. discriminate H. }
    destruct (isWellFormed (prompt (react w))) eqn:Wf.
    { destruct (encodeURIComponent_total _
                  (isWellFormed_enhancedPrompt (style (react w)) (quality (react w)) _
                     (isWellFormed_trim _ Wf))) as [seg E].
      rewrite (handleGenerate_run h w seg T G E) in H. discriminate H. }
    rewrite handleGenerate_unfold in H by assumption.
    destruct (count (react w)) as [|n] eqn:C; [cbn [mapFrom] in H; discriminate H|].
    rewrite (mapFrom_throw_world h (react w) _ _ n 0%nat (begun w) URIError
               (encode_enhancedPrompt _ _ _ Wf)) in H.
    injection H as <- <-. repeat split; try assumption; discriminate. }
  split; [split|].
  - intros (e & w' & H). destruct (Main e w' H) as (A & B & C & D & _).
    repeat split; assumption.
  - intros (G & T & Wf & C). rewrite handleGenerate_unfold by assumption.
    destruct (count (react w)) as [|n]; [contradiction|].
    rewrite (mapFrom_throw_world h (react w) _ _ n 0%nat (begun w) URIError
               (encode_enhancedPrompt _ _ _ Wf)).
    eexists. eexists. reflexivity.
  - intros e w' H. destruct (Main e w' H) as (_ & _ & _ & _ & -> & ->).
    unfold advance. destruct (crypto h); cbn [react effects randomCalls clockCalls begun];
      repeat split; lia.
Qed.

Lemma handleGenerate_throws_witness :
  exists w',
    handleGenerate (fixedHost 5) (fresh (idle [55296] 1)) = Raised URIError w'
    /\ isGenerating (react w') = true.
Proof.
  destruct (handleGenerate (fixedHost 5) (fresh (idle [55296] 1))) as [o w'|e w'] eqn:E;
    [vm_compute in E; discriminate E|].
  destruct (proj2 (handleGenerate_throws (fixedHost 5) (fresh (idle [55296] 1))) e w' E)
    as (-> & R & _).
  exists w'. split; [reflexivity|]. rewrite R. reflexivity.
Defined.

Lemma stuck_step (h : Host) (e : Event) (a a' : App) :
  isGenerating (react (world a)) = true -> waiting a = [] ->
  step h e a = Some a' ->
  isGenerating (react (world a')) = true /\ waiting a' = []
  /\ images (react (world a')) = images (react (world a)).
Proof.
  intros G W H. destruct e; cbn [step] in H.
  1-5: apply some_inj in H; subst a'; repeat split; assumption.
  - destruct (handleGenerate_cases h (world a))
      as [[T E]|[(T & Gen & E)|(T & Gen & _)]].
    + rewrite E in H. apply some_inj in H; subst a'. repeat split; assumption.
    + rewrite E in H. apply some_inj in H; subst a'. repeat split; assumption.
    + rewrite G in Gen. discriminate Gen.
  - rewrite W in H. discriminate H.
  - destruct (fired a <? dismissals (world a))%nat; [|discriminate H].
    apply some_inj in H; subst a'. repeat split; assumption.
  - apply some_inj in H; subst a'. repeat split; assumption.
  - apply some_inj in H; subst a'. repeat split; assumption.
Qed.

(** X18: a session that is generating with no call waiting, which is how a
    thrown [URIError] leaves it, stays so whatever happens next: no event
    resets the generating flag or changes the images. *)
Theorem generating_stuck (h : Host) (es : list Event) (a a' : App) :
  isGenerating (react (world a)) = true -> waiting a = [] ->
  run h es a = Some a' ->
  isGenerating (react (world a')) = true /\ waiting a' = []
  /\ images (react (world a')) = images (react (world a)).
Proof.
  revert a. induction es as [|e es IH]; intros a G W H; cbn [run] in H.
  - apply some_inj in H. subst a'. repeat split; assumption.
  - destruct (step h e a) as [a1|] eqn:E; [|discriminate H].
    destruct (stuck_step h e a a1 G W E) as (G1 & W1 & I1).
    destruct (IH a1 G1 W1 H) as (G2 & W2 & I2). rewrite <- I1. repeat split; assumption.
Qed.

Lemma generating_stuck_witness :
  exists a a',
    run (fixedHost 5) [SetPrompt [55296]; Generate] mounted = Some a
    /\ run (fixedHost 5) [SetPrompt (lit "a cat"); Generate; CloseModal] a = Some a'
    /\ isGenerating (react (world a')) = true /\ waiting a' = [].
Proof.
  destruct (run (fixedHost 5) [SetPrompt [55296]; Generate] mounted) as [a|] eqn:E;
    [|vm_compute in E; discriminate E].
  destruct (run (fixedHost 5) [SetPrompt (lit "a cat"); Generate; CloseModal] a)
    as [a'|] eqn:E'.
  - exists a, a'. split; [reflexivity|]. split; [exact E'|].
    vm_compute in E. apply some_inj in E. subst a.
    pose proof (fun G W => generating_stuck (fixedHost 5) _ _ a' G W E') as P.
    destruct (P eq_refl eq_refl) as (G & W & _). split; assumption.
  - vm_compute in E. apply some_inj in E. subst a. vm_compute in E'. discriminate E'.
Defined.

(** X19: the notifications of a successful cycle.  From a session that is
    not generating, with a prompt that is not empty once trimmed and holds no
    unpaired surrogate, [handleGenerate] emits the info message with its
    dismissal timer, then sets the pacing delay of 600 ms, having drawn one
    value per image from the source in use and none from the other; after
    the delay it emits the success message for the number of images with its
    dismissal timer, and nothing else. *)
Theorem generate_cycle (h : Host) (w : World) :
  isGenerating (react w) = false ->
  trim (prompt (react w)) <> [] ->
  isWellFormed (prompt (react w)) = true ->
  exists next w1 w2,
    handleGenerate h w = Done (Some next) w1
    /\ effects w1 = effects w ++ [Shown generatingStatus; TimeoutSet 5000; TimeoutSet 600]
    /\ (randomCalls w1 + clockCalls w1
        = randomCalls w + clockCalls w + count (react w))%nat
    /\ (match crypto h with
        | Some _ => clockCalls w1 = clockCalls w
        | None => randomCalls w1 = randomCalls w
        end)
    /\ handleGenerateResume next h w1 = Done tt w2
    /\ effects w2 = effects w1 ++ [Shown (successStatus (count (react w))); TimeoutSet 5000]
    /\ randomCalls w2 = randomCalls w1 /\ clockCalls w2 = clockCalls w1.
Proof.
  intros G T Wf.
  destruct (encodeURIComponent_total _
              (isWellFormed_enhancedPrompt (style (react w)) (quality (react w)) _
                 (isWellFormed_trim _ Wf))) as [seg E].
  exists (batch h w seg),
    (addEffect (TimeoutSet 600) (advance h (begun w) (count (react w)))),
    (outcomeWorld (handleGenerateResume (batch h w seg) h
                     (addEffect (TimeoutSet 600) (advance h (begun w) (count (react w)))))).
  split; [apply (handleGenerate_run h w seg T G E)|].
  rewrite handleGenerateResume_world, batch_length.
  unfold advance. destruct (crypto h);
    cbn [outcomeWorld addEffect begun react effects randomCalls clockCalls];
    rewrite <- ?app_assoc; repeat split; try lia.
Qed.

Lemma generate_cycle_witness :
  exists next w1,
    handleGenerate (fixedHost 5) (fresh (idle (lit "a cat") 4)) = Done (Some next) w1
    /\ effects w1 = [Shown generatingStatus; TimeoutSet 5000; TimeoutSet 600]
    /\ randomCalls w1 = 4%nat.
Proof.
  destruct (generate_cycle (fixedHost 5) (fresh (idle (lit "a cat") 4))
              eq_refl ltac:(vm_compute; discriminate) eq_refl)
    as (next & w1 & w2 & H1 & H2 & H3 & H4 & _).
  exists next, w1. split; [exact H1|]. split; [exact H2|].
  cbn [fixedHost crypto fresh randomCalls clockCalls idle count react] in H3, H4. lia.
Defined.

(** X20: [handleGenerate] rejects a prompt exactly when every code unit of
    it is white space (the empty prompt included): that is when it returns
    at once with the error message as the status and as the only thing
    emitted. *)
Theorem handleGenerate_rejects_iff (h : Host) (w : World) :
  forallb isWhiteSpace (prompt (react w)) = true
  <-> exists w', handleGenerate h w = Done None w'
                 /\ status (react w') = Some emptyPromptStatus
                 /\ effects w' = effects w ++ [Shown emptyPromptStatus].
Proof.
  rewrite <- trim_empty_iff. split.
  - intros T. rewrite (handleGenerate_empty h w T). eexists. repeat split.
  - intros (w' & H & _ & Ef).
    destruct (handleGenerate_cases h w) as [[T _]|[(_ & _ & E)|(_ & _ & _ & _ & N)]].
    + exact T.
    + rewrite E in H. apply (f_equal outcomeWorld) in H. cbn [outcomeWorld] in H. subst w'.
      apply (f_equal (@List.length Effect)) in Ef. rewrite length_app in Ef. cbn in Ef. lia.
    + exfalso. apply (N w' H).
Qed.

(** ** Timers *)

(** X21: dismissal timers are never cancelled: when a prompt is rejected
    while the timer of an earlier message is still to fire, the error
    message is shown and the next timer to fire clears it. *)
Theorem error_cleared_by_pending_timer (h : Host) (a : App) :
  trim (prompt (react (world a))) = [] ->
  (fired a < dismissals (world a))%nat ->
  exists a1 a2,
    step h Generate a = Some a1
    /\ status (react (world a1)) = Some emptyPromptStatus
    /\ step h StatusTimeout a1 = Some a2
    /\ status (react (world a2)) = None.
Proof.
  intros T F. cbn [step]. rewrite (handleGenerate_empty h (world a) T).
  eexists. eexists. split; [reflexivity|]. split; [reflexivity|].
  cbn [step world fired].
  rewrite (dismissals_app (world a) [Shown emptyPromptStatus]) by reflexivity.
  cbn [filter isDismissal List.length]. rewrite Nat.add_0_r.
  destruct (Nat.ltb_spec (fired a) (dismissals (world a))); [|lia].
  split; reflexivity.
Qed.

Lemma error_cleared_by_pending_timer_witness :
  exists a a2,
    run (fixedHost 5) [SetPrompt (lit "a cat"); Generate; DelayElapsed; SetPrompt []]
      mounted = Some a
    /\ run (fixedHost 5) [Generate; StatusTimeout] a = Some a2
    /\ status (react (world a2)) = None.
Proof.
  destruct (run (fixedHost 5) [SetPrompt (lit "a cat"); Generate; DelayElapsed; SetPrompt []]
              mounted) as [a|] eqn:E; [|vm_compute in E; discriminate E].
  vm_compute in E. apply some_inj in E. subst a. eexists.
  match goal with |- exists a2, Some ?a = _ /\ _ =>
    destruct (error_cleared_by_pending_timer (fixedHost 5) a eq_refl
                ltac:(vm_compute; lia)) as (a1 & a2 & S1 & _ & S2 & St)
  end.
  exists a2. split; [reflexivity|]. split; [|exact St].
  cbn [run]. rewrite S1, S2. reflexivity.
Defined.

(** ** Theme *)

Lemma getItem_setItem (key value : jsstring) (st : Storage) :
  getItem key (setItem key value st) = Some value
  /\ forall k, k <> key -> getItem k (setItem key value st) = getItem k st.
Proof.
  split.
  - induction st as [|[k v] t IH]; cbn [setItem getItem].
    + rewrite jsstring_eqb_refl. reflexivity.
    + destruct (jsstring_eqb k key) eqn:E; cbn [getItem]; rewrite E; [reflexivity|exact IH].
  - intros k' Hk. induction st as [|[k v] t IH]; cbn [setItem getItem].
    + rewrite jsstring_eqb_neq by (intros E; apply Hk; symmetry; exact E). reflexivity.
    + destruct (jsstring_eqb k key) eqn:E; cbn [getItem].
      * apply jsstring_eqb_eq in E. subst k.
        rewrite jsstring_eqb_neq by (intros E; apply Hk; symmetry; exact E). reflexivity.
      * rewrite IH. reflexivity.
Qed.

(** X22: the theme survives a reload.  The effect stores the name of the
    theme, and the initializer reads that theme back; the [dark] class is on
    exactly for the dark theme; no other key of the storage changes; and a
    page that stored anything but [light], or nothing, mounts dark. *)
Theorem theme_persisted (t : Theme) (pg : Page) :
  initialTheme (storage (themeEffect t pg)) = t
  /\ getItem (lit "theme") (storage (themeEffect t pg)) = Some (themeName t)
  /\ (darkClass (themeEffect t pg) = true <-> t = dark)
  /\ (forall k, k <> lit "theme" ->
        getItem k (storage (themeEffect t pg)) = getItem k (storage pg))
  /\ (initialTheme (storage pg) = light
      <-> getItem (lit "theme") (storage pg) = Some (lit "light"))
  /\ initialTheme (storage (snd (mountTheme pg))) = fst (mountTheme pg).
Proof.
  destruct (getItem_setItem (lit "theme") (themeName t) (storage pg)) as [S1 S2].
  assert (R : forall t' pg', initialTheme (storage (themeEffect t' pg')) = t').
  { intros t' pg'. unfold initialTheme, themeEffect. cbn [storage].
    rewrite (proj1 (getItem_setItem (lit "theme") (themeName t') (storage pg'))).
    destruct t'; reflexivity. }
  split; [apply R|]. split; [exact S1|]. split; [|split; [exact S2|split]].
  - destruct t; cbn [themeEffect darkClass]; split; intros H; try reflexivity;
      discriminate H.
  - unfold initialTheme. destruct (getItem (lit "theme") (storage pg)) as [v|].
    + destruct (jsstring_eqb v (lit "light")) eqn:E.
      * apply jsstring_eqb_eq in E. subst v. split; reflexivity.
      * split; [discriminate|]. intros H. injection H as ->.
        rewrite jsstring_eqb_refl in E. discriminate E.
    + split; discriminate.
  - unfold mountTheme. cbn [fst snd]. apply R.
Qed.

(** ** Seeds on the fallback path *)

(** X23: without [window.crypto], and with a clock that does not go back,
    the images of a batch have pairwise distinct seeds, hence pairwise
    distinct addresses: the index added to each reading separates readings
    that are equal. *)
Theorem fallback_seeds_distinct (h : Host) (w w1 : World) (next : list GeneratedImage) :
  crypto h = None ->
  (forall a b, (a <= b)%nat -> DateNow h a <= DateNow h b) ->
  (forall k, 0 <= DateNow h k <= maxTime) ->
  Z.of_nat (count (react w)) <= 2 ^ 32 ->
  handleGenerate h w = Done (Some next) w1 ->
  NoDup (map g_seed next) /\ NoDup (map g_url next).
Proof.
  intros Hc Hmono Hclock Hn H.
  pose proof (seeds_distinct_fallback h w w1 next Hc Hmono Hclock Hn H) as S.
  split; [exact S|].
  destruct (handleGenerate_inv h w w1 next H) as (_ & _ & [->|[seg [_ ->]]]);
    [constructor|].
  apply NoDup_map_NoDup_ForallPairs; [|apply (NoDup_map_inv g_seed), S].
  intros g1 g2 H1 H2 E. destruct (batch_entries h w seg g1 g2 H1 H2) as [U I].
  apply I, U, E.
Qed.

Lemma fallback_seeds_distinct_witness :
  exists next w1,
    handleGenerate clockHost (fresh (idle (lit "a cat") 4)) = Done (Some next) w1
    /\ NoDup (map g_seed next).
Proof.
  destruct (handleGenerate clockHost (fresh (idle (lit "a cat") 4)))
    as [[next|] w1|e w1] eqn:E;
    try (vm_compute in E; discriminate E).
  exists next, w1. split; [reflexivity|].
  apply (fallback_seeds_distinct clockHost (fresh (idle (lit "a cat") 4)) w1 next eq_refl);
    [ intros a b _; cbn; lia
    | intros k; cbn; unfold maxTime; lia
    | cbn; lia
    | exact E ].
Defined.
(** ** The address determines the prompt *)

Lemma cons_eq {A} (a b : A) (l m : list A) : a :: l = b :: m -> a = b /\ l = m.
Proof. intros H. injection H as H1 H2. split; assumption. Qed.

Lemma utf8_prefix_free (a b : Z) (x y : list byte) :
  0 <= a < 1114112 -> 0 <= b < 1114112 ->
  utf8 a ++ x = utf8 b ++ y -> a = b.
Proof.
  intros Ha Hb. unfold utf8.
  destruct (Z.ltb_spec a 128); destruct (Z.ltb_spec b 128);
    [cbn [app]; intros E; apply cons_eq in E; apply E | | |].
  all: destruct (Z.ltb_spec a 2048); destruct (Z.ltb_spec b 2048);
    try destruct (Z.ltb_spec a 65536); try destruct (Z.ltb_spec b 65536);
    cbn [app]; intros E;
    repeat (apply cons_eq in E; let E1 := fresh "E" in destruct E as [E1 E]);
    Z.div_mod_to_equations; lia.
Qed.

Lemma utf8_nonempty (a : Z) : utf8 a <> [].
Proof.
  unfold utf8. destruct (a <? 128); [discriminate|].
  destruct (a <? 2048); [discriminate|]. destruct (a <? 65536); discriminate.
Qed.

Lemma utf8_all_inj (l m : list Z) :
  Forall (fun cp => 0 <= cp < 1114112) l -> Forall (fun cp => 0 <= cp < 1114112) m ->
  flat_map utf8 l = flat_map utf8 m -> l = m.
Proof.
  intros Hl. revert m. induction Hl as [|a l Ha Hl IH]; intros m Hm E.
  - destruct m as [|b m]; [reflexivity|]. cbn [flat_map] in E.
    pose proof (utf8_nonempty b) as N. destruct (utf8 b); [contradiction|discriminate E].
  - destruct Hm as [|b m Hb Hm].
    + cbn [flat_map] in E. pose proof (utf8_nonempty a) as N.
      destruct (utf8 a); [contradiction|discriminate E].
    + cbn [flat_map] in E. pose proof (utf8_prefix_free a b _ _ Ha Hb E) as ->.
      apply app_inv_head in E. rewrite (IH m Hm E). reflexivity.
Qed.

(** A well-formed string is the code units of its code points. *)
Lemma codePoints_units (s : jsstring) :
  isString s = true -> isWellFormed s = true -> s = flat_map unitsOf (toUSV s).
Proof.
  unfold isWellFormed, toUSV, isString.
  induction s as [|c r IH1 IH2] using jsstring_pair_ind; [reflexivity|].
  cbn [forallb codePoints]. intros Hs. apply andb_true_iff in Hs. destruct Hs as [Hc Hr].
  destruct (isHighSurrogate c) eqn:Eh.
  - destruct r as [|d r0]; [discriminate|].
    destruct (isLowSurrogate d) eqn:El; [|discriminate].
    cbn [forallb isCodePoint andb map flat_map]. intros W.
    cbn [forallb] in Hr. apply andb_true_iff in Hr. destruct Hr as [Hd Hr0].
    rewrite <- (IH2 d r0 eq_refl Hr0 W). unfold unitsOf.
    replace ((c - 55296) * 1024 + (d - 56320) + 65536 <? 65536) with false
      by (symmetry; apply Z.ltb_ge; zbool; lia).
    cbn [app]. f_equal; [|f_equal]; zbool; Z.div_mod_to_equations; lia.
  - destruct (isLowSurrogate c) eqn:El; [discriminate|].
    cbn [forallb isCodePoint andb map flat_map]. intros W.
    rewrite <- (IH1 Hr W). unfold unitsOf.
    replace (c <? 65536) with true by (symmetry; apply Z.ltb_lt; zbool; lia).
    reflexivity.
Qed.

Lemma toUSV_range (s : jsstring) :
  isString s = true -> Forall (fun cp => 0 <= cp < 1114112) (toUSV s).
Proof.
  intros H. apply codePoints_range in H. unfold toUSV.
  induction H as [|x l Hx _ IH]; [constructor|]. cbn [map]. constructor; [|exact IH].
  destruct x; [exact Hx|lia].
Qed.

Lemma encodeURIComponent_inj (s1 s2 seg : jsstring) :
  isString s1 = true -> isString s2 = true ->
  encodeURIComponent s1 = Return seg -> encodeURIComponent s2 = Return seg ->
  s1 = s2.
Proof.
  intros H1 H2 E1 E2.
  destruct (encodeScalars_sound _ seg (codePoints_range _ H1) E1) as [_ D1].
  destruct (encodeScalars_sound _ seg (codePoints_range _ H2) E2) as [_ D2].
  rewrite D1 in D2. injection D2 as D.
  change (flat_map utf8 (toUSV s1) = flat_map utf8 (toUSV s2)) in D.
  apply utf8_all_inj in D; [|apply toUSV_range; assumption..].
  rewrite (codePoints_units s1 H1 (encodeScalars_wellFormed _ _ E1)).
  rewrite (codePoints_units s2 H2 (encodeScalars_wellFormed _ _ E2)).
  rewrite D. reflexivity.
Qed.

Lemma cut_at_mark (a b x y : jsstring) :
  forallb isQueryUnit a = true -> forallb isQueryUnit b = true ->
  a ++ 63 :: x = b ++ 63 :: y -> a = b.
Proof.
  revert b. induction a as [|c a IH]; intros b Ha Hb E.
  - destruct b as [|d b]; [reflexivity|]. cbn [app] in E. injection E as <- _.
    cbn [forallb] in Hb. apply andb_true_iff in Hb. destruct Hb as [Hb _]. discriminate Hb.
  - destruct b as [|d b].
    + cbn [app] in E. injection E as -> _.
      cbn [forallb] in Ha. apply andb_true_iff in Ha. destruct Ha as [Ha _]. discriminate Ha.
    + cbn [app] in E. injection E as <- E. cbn [forallb] in Ha, Hb.
      apply andb_true_iff in Ha, Hb. rewrite (IH b (proj2 Ha) (proj2 Hb) E). reflexivity.
Qed.

(** X24: the address determines the prompt: two requests that get the same
    address have the same prompt, whatever their other fields; so two
    different prompts are never sent as the same request. *)
Theorem buildPollinationsUrl_prompt_inj (p1 p2 : Params) (addr : jsstring) :
  isString (p_prompt p1) = true -> isString (p_prompt p2) = true ->
  buildPollinationsUrl p1 = Return addr -> buildPollinationsUrl p2 = Return addr ->
  p_prompt p1 = p_prompt p2.
Proof.
  intros S1 S2 B1 B2. unfold buildPollinationsUrl in B1, B2.
  destruct (encodeURIComponent (p_prompt p1)) as [seg1|] eqn:E1; [|discriminate].
  destruct (encodeURIComponent (p_prompt p2)) as [seg2|] eqn:E2; [|discriminate].
  assert (G : forall a b : jsstring, Return a = Return b -> a = b)
    by (intros a b G; injection G as G; exact G).
  rewrite <- B2 in B1. apply G in B1. apply app_inv_head in B1.
  apply cut_at_mark in B1;
    [|apply (encodeScalars_query _ _ (codePoints_range _ S1) E1)
     |apply (encodeScalars_query _ _ (codePoints_range _ S2) E2)].
  subst seg2. apply (encodeURIComponent_inj _ _ seg1 S1 S2 E1 E2).
Qed.

Lemma buildPollinationsUrl_prompt_inj_witness :
  exists addr,
    buildPollinationsUrl punctuatedParams = Return addr
    /\ p_prompt punctuatedParams = p_prompt punctuatedParams.
Proof.
  destruct (buildPollinationsUrl punctuatedParams) as [addr|e] eqn:E;
    [|vm_compute in E; discriminate E].
  exists addr. split; [reflexivity|].
  apply (buildPollinationsUrl_prompt_inj punctuatedParams punctuatedParams addr
           eq_refl eq_refl E E).
Defined.

